(** * crop.py: bead crop tool -- a shallow embedding and its properties

    The development follows [src/crop.py]:
    - [Ndarray]: the image arrays of numpy that [export_selected_beads]
      slices and pads (shape, Python slicing, [np.zeros], slice assignment);
    - [Crop]: [export_selected_beads], the per-frame crop and the whole
      decode pass with its writers;
    - [Explorer]: the state of [VideoFrameExplorer] that the selection
      commands read and write (candidate list, crop size, current video),
      and the commands themselves;
    - [Batch]: the loop of [VideoFrameExplorer.export] over the futures of
      the process pool;
    - [Catalog]: [get_sorted_video_files] and the paths of the output
      files;
    - [Session]: the constructor, the navigation commands, the button
      states and [export_one].

    Python [int] is [Z].  Python [float] is modelled by exact rationals
    ([Q], kept in lowest terms); every concrete evaluation of the code
    below uses dyadic values, on which binary64 arithmetic is exact, and
    the only law of the rationals that a theorem uses is
    [a - h <= a <= a + h] for [0 <= h], which rounding keeps. *)

From Stdlib Require Import ZArith QArith Bool Lqa Ascii.
From stdpp Require Import base list strings sorting pretty.

Local Open Scope Z_scope.

(** ** numpy image arrays *)

Module Ndarray.

(** One BGR pixel of a [uint8] image with three channels. *)
Definition pixel : Type := Z * Z * Z.

Definition black : pixel := (0, 0, 0).

(** An image of shape [(shape0, shape1, 3)].  The shape is kept beside
    the rows because numpy keeps [shape[1]] when [shape[0]] is 0. *)
Record ndarray : Type := mk_ndarray {
  shape0 : Z;
  shape1 : Z;
  rows : list (list pixel)
}.

(** The rows agree with the shape. *)
Definition wf (a : ndarray) : Prop :=
  Z.of_nat (length (rows a)) = shape0 a ∧
  0 ≤ shape1 a ∧
  Forall (λ r, Z.of_nat (length r) = shape1 a) (rows a).

(** [a[r, c]], for indices inside the array. *)
Definition pixel_at (a : ndarray) (r c : Z) : option pixel :=
  if (0 <=? r) && (0 <=? c)
  then rows a !! Z.to_nat r ≫= (λ row, row !! Z.to_nat c)
  else None.

(** A bound of a Python slice on an axis of length [n]: a negative bound
    counts from the end, then the bound is clamped to [0, n]. *)
Definition slice_bound (n i : Z) : Z :=
  if i <? 0 then Z.max 0 (i + n) else Z.min i n.

(** [l[lo:hi]] *)
Definition slice {A} (lo hi : Z) (l : list A) : list A :=
  let n := Z.of_nat (length l) in
  let start := slice_bound n lo in
  let stop := slice_bound n hi in
  take (Z.to_nat (stop - start)) (drop (Z.to_nat start) l).

(** The length of [l[lo:hi]] on an axis of length [n]. *)
Definition slice_len (n lo hi : Z) : Z :=
  Z.max 0 (slice_bound n hi - slice_bound n lo).

(** [a[y1:y2, x1:x2]] *)
Definition slice2 (a : ndarray) (y1 y2 x1 x2 : Z) : ndarray :=
  {| shape0 := slice_len (shape0 a) y1 y2;
     shape1 := slice_len (shape1 a) x1 x2;
     rows := slice x1 x2 <$> slice y1 y2 (rows a) |}.

(** [np.zeros((n, n, 3), dtype=np.uint8)] *)
Definition zeros (n : Z) : ndarray :=
  {| shape0 := n; shape1 := n;
     rows := replicate (Z.to_nat n) (replicate (Z.to_nat n) black) |}.

(** Broadcasting of one axis in an assignment: the source axis has the
    length of the target axis, or length 1. *)
Definition broadcastable (src tgt : Z) : bool :=
  (src =? tgt) || (src =? 1).

(** Overwrite the first [length src] elements of [dst] by [src]. *)
Definition overwrite {A} (src dst : list A) : list A :=
  src ++ drop (length src) dst.

(** [dst[:h, :w] = src] with [(h, w) = src.shape[:2]].  The target block
    is [dst[:h, :w]], clamped to the shape of [dst]; numpy raises
    [ValueError] ([None]) when [src] cannot be broadcast to it. *)
Definition assign_top_left (dst src : ndarray) : option ndarray :=
  let h := shape0 src in
  let w := shape1 src in
  if broadcastable h (slice_len (shape0 dst) 0 h)
     && broadcastable w (slice_len (shape1 dst) 0 w)
  then Some {| shape0 := shape0 dst; shape1 := shape1 dst;
               rows := zip_with overwrite (rows src)
                         (take (length (rows src)) (rows dst))
                       ++ drop (length (rows src)) (rows dst) |}
  else None.

End Ndarray.

(** ** The crop exporter *)

Module Crop.
Import Ndarray.

(** The body of the loop over [writers] in [export_selected_beads]: the
    frame handed to [writer.write] for the centre [(cx, cy)]. *)
Definition crop_bounds (crop_size cx cy : Z) (frame : ndarray)
  : Z * Z * Z * Z :=
  let half_crop_size := crop_size / 2 in
  let y1 := Z.max 0 (cy - half_crop_size) in
  let y2 := Z.min (cy + half_crop_size) (shape0 frame) in
  let x1 := Z.max 0 (cx - half_crop_size) in
  let x2 := Z.min (cx + half_crop_size) (shape1 frame) in
  (y1, y2, x1, x2).

Definition crop_region (crop_size cx cy : Z) (frame : ndarray) : ndarray :=
  let '(y1, y2, x1, x2) := crop_bounds crop_size cx cy frame in
  slice2 frame y1 y2 x1 x2.

Definition crop_frame (crop_size cx cy : Z) (frame : ndarray)
  : option ndarray :=
  let region := crop_region crop_size cx cy frame in
  if negb (shape0 region =? crop_size) || negb (shape1 region =? crop_size)
  then assign_top_left (zeros crop_size) region
  else Some region.

(** What [export_selected_beads] can raise. *)
Inductive error : Type :=
| FileNotFoundError
| CvError
| ValueError.

(** A source video as [export_selected_beads] sees it through
    [os.path.exists] and [cv2.VideoCapture]. *)
Record video : Type := mk_video {
  video_path : string;
  on_disk : bool;            (* os.path.exists(video_path) *)
  is_opened : bool;          (* cap.isOpened() *)
  frame_width : Z;           (* int(cap.get(cv2.CAP_PROP_FRAME_WIDTH)) *)
  frame_height : Z;          (* int(cap.get(cv2.CAP_PROP_FRAME_HEIGHT)) *)
  fps : Q;                   (* cap.get(cv2.CAP_PROP_FPS) *)
  frame_count : Z;           (* int(cap.get(cv2.CAP_PROP_FRAME_COUNT)) *)
  decoded : list ndarray     (* the frames cap.read() yields before it
                                first returns ret = False *)
}.

(** One [(cv2.VideoWriter(out_path, fourcc, fps, (crop_size, crop_size)),
    (cx, cy))] pair, with the frames handed to [write] so far.  The
    output path is [output/bead_<bead>/<basename of source>]. *)
Record writer : Type := mk_writer {
  bead : nat;
  source : string;
  writer_fps : Q;
  frame_size : Z * Z;
  center : Z * Z;
  written : list ndarray
}.

Definition write (w : writer) (f : ndarray) : writer :=
  {| bead := bead w; source := source w; writer_fps := writer_fps w;
     frame_size := frame_size w; center := center w;
     written := written w ++ [f] |}.

(** The loop over [enumerate(selections)].  A selection is a pair
    [(cx, cy)], which Python always counts as true, so every selection
    gets a writer; [i] is made 1-based before it is used. *)
Definition open_writers (v : video) (selections : list (Z * Z))
    (crop_size : Z) : list writer :=
  imap (λ i selected,
          {| bead := S i; source := video_path v; writer_fps := fps v;
             frame_size := (crop_size, crop_size); center := selected;
             written := [] |}) selections.

(** [for writer, (cx, cy) in writers: ...] on one decoded frame.  An
    exception of the padding ends the pass. *)
Definition write_crops (crop_size : Z) (frame : ndarray)
    (writers : list writer) : error + list writer :=
  match mapM (λ w, write w <$>
                     crop_frame crop_size (center w).1 (center w).2 frame)
             writers with
  | Some ws => inr ws
  | None => inl ValueError
  end.

(** [for i in range(total_frames): ret, frame = cap.read(); if not ret:
    break; ...] over the frames still to be read. *)
Fixpoint decode_pass (crop_size : Z) (total_frames : nat)
    (to_read : list ndarray) (writers : list writer)
    : error + list writer :=
  match total_frames, to_read with
  | S n, frame :: rest =>
      match write_crops crop_size frame writers with
      | inr ws => decode_pass crop_size n rest ws
      | inl e => inl e
      end
  | _, _ => inr writers
  end.

(** [export_selected_beads(input, output, video_path, selections,
    crop_size)]: the writers with what each was given, or the exception
    raised. *)
Definition export_selected_beads (v : video) (selections : list (Z * Z))
    (crop_size : Z) : error + list writer :=
  if negb (on_disk v) then inl FileNotFoundError
  else if negb (is_opened v) then inl CvError
  else decode_pass crop_size (Z.to_nat (frame_count v)) (decoded v)
         (open_writers v selections crop_size).

End Crop.

(** ** The explorer: candidates, crop size, coordinate mapping *)

Module Explorer.
Import Ndarray Crop.

(** Python floats as rationals in lowest terms. *)
Definition of_int (z : Z) : Q := inject_Z z.
Definition fdiv (a b : Q) : Q := Qred (a / b).
Definition fmul (a b : Q) : Q := Qred (a * b).
Definition fadd (a b : Q) : Q := Qred (a + b).
Definition fsub (a b : Q) : Q := Qred (a - b).
Definition fle (a b : Q) : bool := Qle_bool a b.
Definition fmin (a b : Q) : Q := if Qle_bool a b then a else b.

(** [int(q)]: truncation towards zero. *)
Definition trunc (q : Q) : Z := Z.quot (Qnum q) (Z.pos (Qden q)).

(** A candidate of [self.detected_centers]: [(center, clicked)]. *)
Definition candidate : Type := (Q * Q) * bool.

(** The fields of [VideoFrameExplorer] that the selection commands read
    and write.  The Tk widgets (canvas, entries, [crop_size_var]) belong
    to the presentation and are left out; the text of an entry is an
    argument of the command that reads it. *)
Record explorer : Type := mk_explorer {
  video_paths : list video;
  current_index : nat;
  detected_centers : list candidate;
  crop_size : Z
}.

Definition set_centers (st : explorer) (l : list candidate) : explorer :=
  {| video_paths := video_paths st; current_index := current_index st;
     detected_centers := l; crop_size := crop_size st |}.

Definition set_crop_size (st : explorer) (n : Z) : explorer :=
  {| video_paths := video_paths st; current_index := current_index st;
     detected_centers := detected_centers st; crop_size := n |}.

(** [self.video_paths[self.current_index]]; [None] is [IndexError]. *)
Definition current_video (st : explorer) : option video :=
  video_paths st !! current_index st.

(** [get_frame_size(video_path)] *)
Definition get_frame_size (v : video) : option Z * option Z :=
  if is_opened v then (Some (frame_width v), Some (frame_height v))
  else (None, None).

(** [disp / orig if orig else 1]: [None] and [0] count as false. *)
Definition ratio_or_one (disp : Z) (orig : option Z) : Q :=
  match orig with
  | Some z => if z =? 0 then 1%Q else fdiv (of_int disp) (of_int z)
  | None => 1%Q
  end.

(** [VideoFrameExplorer.get_scale] *)
Definition get_scale (st : explorer) : option Q :=
  v ← current_video st;
  let '(orig_width, orig_height) := get_frame_size v in
  let scale_w := ratio_or_one 960 orig_width in
  let scale_h := ratio_or_one 540 orig_height in
  Some (fmin scale_w scale_h).

(** The scale that [on_canvas_click], [on_canvas_right_click], [export]
    and [export_one] compute in line:
    [scale = disp_width / orig_width if orig_width else 1]. *)
Definition width_scale (st : explorer) : option Q :=
  v ← current_video st;
  let '(orig_width, orig_height) := get_frame_size v in
  Some (ratio_or_one 960 orig_width).

(** [x1 <= x <= x2 and y1 <= y <= y2] for the box of a candidate. *)
Definition hit (half_side_length_scaled : Q) (x y : Z) (c : candidate)
  : bool :=
  let center := c.1 in
  let x1 := fsub center.1 half_side_length_scaled in
  let y1 := fsub center.2 half_side_length_scaled in
  let x2 := fadd center.1 half_side_length_scaled in
  let y2 := fadd center.2 half_side_length_scaled in
  fle x1 (of_int x) && fle (of_int x) x2
  && fle y1 (of_int y) && fle (of_int y) y2.

(** [scale * (self.crop_size // 2)] *)
Definition half_side (scale : Q) (crop_size : Z) : Q :=
  fmul scale (of_int (crop_size / 2)).

(** [VideoFrameExplorer.draw_rectangle]: the corners [(x1, y1, x2, y2)]
    of the rectangle drawn on the canvas for a candidate. *)
Definition draw_rectangle (st : explorer) (center : Q * Q)
  : option (Q * Q * Q * Q) :=
  scale ← get_scale st;
  let half_side_length_scaled := fmul (of_int (crop_size st / 2)) scale in
  let '(x, y) := center in
  Some (fsub x half_side_length_scaled, fsub y half_side_length_scaled,
        fadd x half_side_length_scaled, fadd y half_side_length_scaled).

(** [VideoFrameExplorer.on_canvas_click], on the pointer position
    [(event.x, event.y)].  The loop stops at the first candidate whose
    box holds the point and replaces it, at its index, by the same centre
    with the flag negated.  [None] is the [IndexError] of the look-up of
    the current video, raised before anything is written. *)
Definition on_canvas_click (st : explorer) (x y : Z) : option explorer :=
  scale ← width_scale st;
  let half_side_length_scaled := half_side scale (crop_size st) in
  match list_find (λ c, hit half_side_length_scaled x y c = true)
          (detected_centers st) with
  | Some (i, (center, clicked)) =>
      Some (set_centers st
              (<[i := (center, negb clicked)]> (detected_centers st)))
  | None => Some st
  end.

(** [VideoFrameExplorer.on_canvas_right_click]:
    [del self.detected_centers[i]] at the first hit. *)
Definition on_canvas_right_click (st : explorer) (x y : Z)
  : option explorer :=
  scale ← width_scale st;
  let half_side_length_scaled := half_side scale (crop_size st) in
  match list_find (λ c, hit half_side_length_scaled x y c = true)
          (detected_centers st) with
  | Some (i, _) => Some (set_centers st (delete i (detected_centers st)))
  | None => Some st
  end.

(** [VideoFrameExplorer.add_custom_rectangle].  [new_x] and [new_y] are
    the results of [int(self.new_x.get())] and [int(self.new_y.get())],
    [None] when [int] raises [ValueError].  The whole body runs under
    [try: ... except: pass], so every exception leaves the state as it
    was. *)
Definition add_custom_rectangle (st : explorer) (new_x new_y : option Z)
  : explorer :=
  default st
    (x ← new_x;
     if 0 <? x then
       y ← new_y;
       if 0 <? y then
         scale ← get_scale st;
         Some (set_centers st
                 (detected_centers st
                  ++ [((fmul (of_int x) scale, fmul (of_int y) scale),
                       true)]))
       else Some st
     else Some st).

(** [VideoFrameExplorer.update_crop_size].  [text] is the result of
    [int(self.crop_size_var.get())], [None] when [int] raises
    [ValueError]; the handler of that exception only resets the text of
    the entry. *)
Definition update_crop_size (st : explorer) (text : option Z) : explorer :=
  match text with
  | Some new_size =>
      if 0 <? new_size then set_crop_size st new_size else st
  | None => st
  end.

(** [VideoFrameExplorer.remove_all_rectangles] *)
Definition remove_all_rectangles (st : explorer) : explorer :=
  set_centers st [].

(** The list [selected_centers] of [export] and [export_one]. *)
Definition selected_centers (st : explorer) : option (list (Z * Z)) :=
  scale ← width_scale st;
  Some ((λ c : candidate,
           (trunc (fdiv c.1.1 scale), trunc (fdiv c.1.2 scale)))
        <$> filter (λ c : candidate, c.2 = true) (detected_centers st)).

(** Detection.  [cv2.resize] and the OpenCV pipeline of [detect_beads]
    (grey scale, Otsu threshold, external contours, moments) are
    functions of the library, taken as given.  The colour conversions
    around them ([BGR2RGB], [RGB2BGR]) keep the shape of a frame and are
    counted with [detect_beads]. *)
Section Detection.
Variable resize : ndarray → Z → Z → ndarray.
Variable detect_beads : ndarray → list (Z * Z).

(** [get_first_frame(video_path)] with the default target 960 x 540. *)
Definition get_first_frame (v : video) : option ndarray :=
  match decoded v with
  | frame :: _ =>
      let orig_height := shape0 frame in
      let orig_width := shape1 frame in
      let scale_w := fdiv (of_int 960) (of_int orig_width) in
      let scale_h := fdiv (of_int 540) (of_int orig_height) in
      let scale := fmin scale_w scale_h in
      let new_width := trunc (fmul (of_int orig_width) scale) in
      let new_height := trunc (fmul (of_int orig_height) scale) in
      Some (resize frame new_width new_height)
  | [] => None
  end.

(** [VideoFrameExplorer.detect_and_draw_centers] *)
Definition detect_and_draw_centers (st : explorer) (frame : ndarray)
  : explorer :=
  let centers := detect_beads frame in
  set_centers st
    (detected_centers st
     ++ ((λ center : Z * Z,
            ((of_int center.1, of_int center.2), false)) <$> centers)).

(** [VideoFrameExplorer.recreate_rectangles] *)
Definition recreate_rectangles (st : explorer) : option explorer :=
  v ← current_video st;
  match get_first_frame v with
  | Some frame => Some (detect_and_draw_centers st frame)
  | None => Some st
  end.
End Detection.

End Explorer.

(** ** The batch of [VideoFrameExplorer.export] *)

Module Batch.
Import Ndarray Crop Explorer.

(** The calls received by the progress sink [self.progress]. *)
Inductive sink_call : Type :=
| Reset (total : Z)        (* progress.reset(total=...) *)
| Update (n : Z)           (* progress.update(n) *)
| SetDone                  (* progress.n = progress.total *)
| Refresh.                 (* progress.refresh() *)

(** The lines printed by [export]. *)
Inductive line : Type :=
| GeneratedAnException (video_name : string) (exc : error)
| NoCentersSelected.

(** A future of the pool with the video it is mapped to in
    [future_to_video]: what [future.result()] returns or raises. *)
Record future : Type := mk_future {
  video_file : video;
  result : error + list writer
}.

Record report : Type := mk_report {
  submitted : list future;
  calls : list sink_call;
  printed : list line
}.

(** The comprehension that builds [future_to_video]: one task
    [export_selected_beads(input, output, video_file, selected_centers,
    crop_size)] for each video of [video_paths[0 : current_index + 1]]. *)
Definition submit_all (st : explorer) (selected : list (Z * Z))
  : list future :=
  (λ v, {| video_file := v;
           result := export_selected_beads v selected (crop_size st) |})
  <$> take (S (current_index st)) (video_paths st).

(** One turn of [for future in as_completed(future_to_video)]. *)
Definition collect (acc : list sink_call * list line) (f : future)
  : list sink_call * list line :=
  let calls := acc.1 ++ [Update 1] in
  match result f with
  | inr _ => (calls, acc.2)
  | inl exc =>
      (calls, acc.2 ++ [GeneratedAnException (video_path (video_file f)) exc])
  end.

Section Pool.
(** The order in which the pool completes the futures. *)
Variable as_completed : list future → list future.
(** [VideoFrameExplorer.export]; [None] is the [IndexError] of the
    look-up of the current video. *)
Definition export (st : explorer) : option report :=
  selected ← selected_centers st;
  let reset := [Reset (Z.of_nat (current_index st) + 1)] in
  match selected with
  | [] => Some {| submitted := []; calls := reset;
                  printed := [NoCentersSelected] |}
  | _ :: _ =>
      let future_to_video := submit_all st selected in
      let '(calls, printed) :=
        foldl collect (reset, []) (as_completed future_to_video) in
      Some {| submitted := future_to_video;
              calls := calls ++ [SetDone; Refresh];
              printed := printed |}
  end.
End Pool.

End Batch.

(** ** Predicates on exported frames *)

Module CropSpec.
Import Ndarray Crop.

(** A frame of exactly [s] rows of [s] pixels. *)
Definition square (s : Z) (f : ndarray) : Prop :=
  wf f ∧ shape0 f = s ∧ shape1 f = s.


(** Every pixel of [frame] that lies in the window
    [[cx - half, cx + half) × [cy - half, cy + half)] is found in [out] at
    its position relative to the top-left corner of the window. *)
Definition window_relative (s cx cy : Z) (frame out : ndarray) : Prop :=
  let half := s / 2 in
  ∀ r c,
    0 ≤ r < shape0 frame → 0 ≤ c < shape1 frame →
    cy - half ≤ r < cy + half → cx - half ≤ c < cx + half →
    pixel_at out (r - (cy - half)) (c - (cx - half)) = pixel_at frame r c.

(** The clipped block sits in the top-left corner of [out], which is
    zero elsewhere. *)
Definition top_left_block (s cx cy : Z) (frame out : ndarray) : Prop :=
  let '(y1, y2, x1, x2) := crop_bounds s cx cy frame in
  ∀ r c,
    0 ≤ r < s → 0 ≤ c < s →
    pixel_at out r c
    = if (r <? y2 - y1) && (c <? x2 - x1)
      then pixel_at frame (y1 + r) (x1 + c)
      else Some black.

(** A writer whose centre lies in the first quadrant and that has been
    given [k] frames so far, all of them satisfying [P]. *)
Definition fed (P : ndarray → Prop) (k : nat) (w : writer) : Prop :=
  (0 ≤ (center w).1 ∧ 0 ≤ (center w).2) ∧
  length (written w) = k ∧ Forall P (written w).

(** A 4 x 4 frame whose pixel at [(r, c)] is [(r, c, 0)]. *)
Definition frame4 : ndarray :=
  {| shape0 := 4; shape1 := 4;
     rows := (λ r, (λ c, (r, c, 0)) <$> [0; 1; 2; 3]) <$> [0; 1; 2; 3] |}.

(** A video of two such frames. *)
Definition video4 : video :=
  {| video_path := "a.mp4"; on_disk := true; is_opened := true;
     frame_width := 4; frame_height := 4; fps := 30; frame_count := 2;
     decoded := [frame4; frame4] |}.

End CropSpec.

(** ** Predicates and sample states for the explorer *)

Module ExplorerSpec.
Import Ndarray Crop Explorer Batch.

(** The result of [int(text)] is a positive integer. *)
Definition positive (text : option Z) : Prop :=
  ∃ z, text = Some z ∧ 0 < z.



(** The line that [export] prints for a future that raised. *)
Definition failure (f : future) : option line :=
  match result f with
  | inl exc => Some (GeneratedAnException (video_path (video_file f)) exc)
  | inr _ => None
  end.

(** A video file of the given native size that opens and has no frame
    left to decode. *)
Definition video_of_size (name : string) (width height : Z) : video :=
  {| video_path := name; on_disk := true; is_opened := true;
     frame_width := width; frame_height := height; fps := 30;
     frame_count := 0; decoded := [] |}.

(** A catalog of one video with the candidates [l]. *)
Definition explorer_of (v : video) (l : list candidate) (crop : Z)
  : explorer :=
  {| video_paths := [v]; current_index := 0; detected_centers := l;
     crop_size := crop |}.

(** 1920 x 1080: both ratios are 1/2. *)
Definition explorer_hd : explorer :=
  explorer_of (video_of_size "hd.mp4" 1920 1080) [] 100.

(** 960 x 1080, taller than 16:9: the width ratio is 1, the height
    ratio is 1/2. *)
Definition explorer_tall : explorer :=
  explorer_of (video_of_size "tall.mp4" 960 1080) [] 100.

(** 1280 x 720 (scale 3/4), one candidate shown at [(100, 100)], odd
    crop size 107. *)
Definition explorer_720 : explorer :=
  explorer_of (video_of_size "hd720.mp4" 1280 720)
    [((100%Q, 100%Q), false)] 107.

(** 960 x 540 (scale 1), two candidates whose boxes overlap. *)
Definition explorer_overlap : explorer :=
  explorer_of (video_of_size "sd.mp4" 960 540)
    [((100%Q, 100%Q), false); ((110%Q, 100%Q), true)] 100.


(** Stand-ins for [cv2.resize] and for the detector, to run the model: a
    black frame of the requested size, and the middle of the frame as
    the only centre. *)
Definition resize_blank (frame : ndarray) (width height : Z) : ndarray :=
  {| shape0 := height; shape1 := width;
     rows := replicate (Z.to_nat height)
               (replicate (Z.to_nat width) black) |}.


(** A file that is missing when its task runs. *)
Definition missing_video (name : string) : video :=
  {| video_path := name; on_disk := false; is_opened := false;
     frame_width := 0; frame_height := 0; fps := 0;
     frame_count := 0; decoded := [] |}.

(** Three videos, the second one missing, one selected candidate. *)
Definition explorer_batch : explorer :=
  {| video_paths := [video_of_size "a.mp4" 960 540; missing_video "b.mp4";
                     video_of_size "c.mp4" 960 540];
     current_index := 2;
     detected_centers := [((100%Q, 100%Q), true)];
     crop_size := 100 |}.

End ExplorerSpec.

(** ** The catalog and the output files *)

Module Catalog.

(** [s.endswith(suffix)]: some tail of [s] is [suffix]. *)
Fixpoint endswith (s suffix : string) : bool :=
  if String.eqb s suffix then true
  else match s with
       | EmptyString => false
       | String _ rest => endswith rest suffix
       end.

(** [s.startswith(prefix)] *)
Definition startswith (s prefix : string) : bool := String.prefix prefix s.

(** ['/' in s] *)
Fixpoint has_sep (s : string) : bool :=
  match s with
  | EmptyString => false
  | String c rest => Ascii.eqb c "/"%char || has_sep rest
  end.

(** [os.path.join(a, b)] on a POSIX system. *)
Definition join (a b : string) : string :=
  if startswith b "/" then b
  else if String.eqb a EmptyString || endswith a "/" then a +:+ b
  else a +:+ "/" +:+ b.

(** [os.path.basename(p)] on a POSIX system: what follows the last
    separator. *)
Fixpoint basename (p : string) : string :=
  match p with
  | EmptyString => EmptyString
  | String c rest =>
      if has_sep rest then basename rest
      else if Ascii.eqb c "/"%char then rest else p
  end.

(** [f.endswith((".mp4", ".avi"))] *)
Definition is_video_file (f : string) : bool :=
  endswith f ".mp4" || endswith f ".avi".

(** [get_sorted_video_files(input)], on the names that [os.listdir(input)]
    returns.  [list.sort] orders strings by code point, which on their
    UTF-8 bytes is the order [String.le]; equal names are the same
    string, so the sorted list does not depend on the algorithm. *)
Definition get_sorted_video_files (input : string) (listdir : list string)
  : list string :=
  let video_files := filter (λ f, is_video_file f = true) listdir in
  let video_files := merge_sort String.le video_files in
  join input <$> video_files.

(** The path of the file that [export_selected_beads] opens for the bead
    numbered [i]:
    [os.path.join(os.path.join(output, f"bead_{i}"),
                  os.path.basename(video_path))]. *)
Definition out_path (output : string) (i : nat) (video_path : string)
  : string :=
  let out_dir := join output ("bead_" +:+ pretty i) in
  join out_dir (basename video_path).

End Catalog.

(** ** Predicates and sample data for the catalog *)

Module CatalogSpec.
Import Catalog.

(** A name without a separator, as [os.listdir] returns them. *)
Definition plain (f : string) : Prop := has_sep f = false.

(** What [os.path.join(input, f)] puts before a plain name [f]. *)
Definition dir_prefix (a : string) : string :=
  if String.eqb a EmptyString || endswith a "/" then a else a +:+ "/".

(** A directory with two videos, a video with an upper-case extension
    and a text file. *)
Definition listing : list string :=
  ["b.mp4"; "notes.txt"; "a.avi"; "C.MP4"; "10.mp4"].

End CatalogSpec.

(** ** Start-up, navigation and single export *)

Module Session.
Import Ndarray Crop Explorer Batch.

Definition set_index (st : explorer) (index : nat) : explorer :=
  {| video_paths := video_paths st; current_index := index;
     detected_centers := detected_centers st; crop_size := crop_size st |}.

(** [VideoFrameExplorer.show_frame(index)]: the index is stored, the
    first frame of that video is shown when there is one.  [None] is the
    [IndexError] of [self.video_paths[index]], raised when the index is
    not one of the catalog. *)
Definition show_frame (st : explorer) (index : nat) : option explorer :=
  _ ← video_paths st !! index;
  Some (set_index st index).

(** [VideoFrameExplorer.show_first_frame] *)
Definition show_first_frame (st : explorer) : option explorer :=
  show_frame st 0.

(** [VideoFrameExplorer.show_prev_frame] *)
Definition show_prev_frame (st : explorer) : option explorer :=
  if (0 <? current_index st)%nat
  then show_frame st (current_index st - 1)
  else Some st.

(** [VideoFrameExplorer.show_next_frame] *)
Definition show_next_frame (st : explorer) : option explorer :=
  if Z.of_nat (current_index st) <? Z.of_nat (length (video_paths st)) - 1
  then show_frame st (current_index st + 1)
  else Some st.

(** [VideoFrameExplorer.show_last_frame].  On an empty catalog the index
    is [-1] and the look-up raises [IndexError]. *)
Definition show_last_frame (st : explorer) : option explorer :=
  match length (video_paths st) with
  | O => None
  | S n => show_frame st n
  end.

Inductive button_state : Type :=
| disabled
| normal.

Record buttons : Type := mk_buttons {
  first_button : button_state;
  prev_button : button_state;
  next_button : button_state;
  last_button : button_state
}.

(** [VideoFrameExplorer.update_button_states] *)
Definition update_button_states (st : explorer) : buttons :=
  let backward :=
    if (current_index st =? 0)%nat then disabled else normal in
  let forward :=
    if Z.of_nat (length (video_paths st)) - 1 <=? Z.of_nat (current_index st)
    then disabled else normal in
  {| first_button := backward; prev_button := backward;
     next_button := forward; last_button := forward |}.

(** What [export_one] does: it returns after the export, lets the
    exception of the export through, or prints a line. *)
Inductive outcome : Type :=
| Exported (ws : list writer)
| Raised (exc : error)
| Printed (l : line).

(** [VideoFrameExplorer.export_one]; [None] is the [IndexError] of the
    look-up of the current video. *)
Definition export_one (st : explorer) : option outcome :=
  selected ← selected_centers st;
  match selected with
  | [] => Some (Printed NoCentersSelected)
  | _ :: _ =>
      v ← current_video st;
      Some (match export_selected_beads v selected (crop_size st) with
            | inr ws => Exported ws
            | inl exc => Raised exc
            end)
  end.

Section Start.
Variable resize : ndarray → Z → Z → ndarray.
Variable detect_beads : ndarray → list (Z * Z).

(** [VideoFrameExplorer.__init__] on the catalog [video_paths]: the
    fields, the detection on the first frame of the first video, and
    [show_frame(0)].  [None] is an exception: [IndexError] on an empty
    catalog, or the error of the colour conversion when the first video
    yields no frame. *)
Definition __init__ (video_paths : list video) : option explorer :=
  let st := {| video_paths := video_paths; current_index := 0;
               detected_centers := []; crop_size := 100 |} in
  v ← current_video st;
  frame ← get_first_frame resize v;
  show_frame (detect_and_draw_centers detect_beads st frame) (current_index st).
End Start.

End Session.

(** ** Predicates and sample data for the session *)

Module SessionSpec.
Import Ndarray Crop Explorer Batch Session.

(** The stored centres have no negative coordinate. *)
Definition nonneg_centers (l : list candidate) : Prop :=
  Forall (λ c : candidate, (0 <= c.1.1)%Q ∧ (0 <= c.1.2)%Q) l.

(** Integer centres with no negative coordinate. *)
Definition nonneg_points (l : list (Z * Z)) : Prop :=
  Forall (λ c : Z * Z, 0 ≤ c.1 ∧ 0 ≤ c.2) l.

(** The reported size of a video is not negative. *)
Definition sized (v : video) : Prop :=
  0 ≤ frame_width v ∧ 0 ≤ frame_height v.

(** A video that [export_selected_beads] can read. *)
Definition readable (v : video) : Prop :=
  on_disk v = true ∧ is_opened v = true ∧ Forall wf (decoded v).

(** The candidates that are selected. *)
Definition selected (l : list candidate) : list candidate :=
  filter (λ c : candidate, c.2 = true) l.

(** The writer [w] with the frames [outs] appended. *)
Definition fed_with (w : writer) (outs : list ndarray) : writer :=
  {| bead := bead w; source := source w; writer_fps := writer_fps w;
     frame_size := frame_size w; center := center w;
     written := written w ++ outs |}.

(** The crops of the frames [frames] at the centre [c], in order. *)
Definition crops (s : Z) (c : Z * Z) (frames : list ndarray)
  : option (list ndarray) :=
  mapM (crop_frame s c.1 c.2) frames.

(** The index of the current video is an index of the catalog. *)
Definition in_range (st : explorer) : Prop :=
  (current_index st < length (video_paths st))%nat.

(** A detector that finds one bead, wherever it looks. *)
Definition detect_one (frame : ndarray) : list (Z * Z) := [(1, 2)].

(** A catalog of three readable videos, the second one current. *)
Definition explorer_three : explorer :=
  {| video_paths := [CropSpec.video4; CropSpec.video4; CropSpec.video4];
     current_index := 1;
     detected_centers := [((1%Q, 1%Q), true); ((3%Q, 0%Q), false)];
     crop_size := 3 |}.

End SessionSpec.

(** * Properties *)

(** ** Slices and padding *)

Module NdarrayFacts.
Import Ndarray.

Lemma slice_bound_range n i : 0 ≤ n → 0 ≤ slice_bound n i ≤ n.
Proof. unfold slice_bound. destruct (Z.ltb_spec i 0); lia. Qed.

Lemma slice_bound_nonneg n i : 0 ≤ i → slice_bound n i = Z.min i n.
Proof. unfold slice_bound. destruct (Z.ltb_spec i 0); lia. Qed.

Lemma slice_len_nonneg n lo hi :
  0 ≤ lo → 0 ≤ hi → slice_len n lo hi = Z.max 0 (Z.min hi n - Z.min lo n).
Proof.
  intros Hlo Hhi. unfold slice_len. by rewrite !slice_bound_nonneg.
Qed.

Lemma slice_length {A} lo hi (l : list A) :
  Z.of_nat (length (slice lo hi l)) = slice_len (Z.of_nat (length l)) lo hi.
Proof.
  unfold slice, slice_len. rewrite length_take, length_drop.
  pose proof (slice_bound_range (Z.of_nat (length l)) lo).
  pose proof (slice_bound_range (Z.of_nat (length l)) hi).
  lia.
Qed.

Lemma slice_lookup {A} lo hi (l : list A) (i : nat) :
  Z.of_nat i < slice_len (Z.of_nat (length l)) lo hi →
  slice lo hi l !! i
  = l !! (Z.to_nat (slice_bound (Z.of_nat (length l)) lo) + i)%nat.
Proof.
  unfold slice, slice_len. intros Hi.
  rewrite lookup_take_lt by lia. apply lookup_drop.
Qed.

Lemma slice2_wf a y1 y2 x1 x2 : wf a → wf (slice2 a y1 y2 x1 x2).
Proof.
  intros (Hrows & Hw & Hcols). split_and!; simpl.
  - rewrite length_fmap, slice_length. by rewrite Hrows.
  - unfold slice_len. lia.
  - apply Forall_fmap, Forall_lookup. intros i r Hr. simpl.
    assert (r ∈ rows a) as Hin.
    { unfold slice in Hr. apply lookup_take_Some in Hr as [Hr _].
      rewrite lookup_drop in Hr. by eapply list_elem_of_lookup_2. }
    rewrite Forall_forall in Hcols. rewrite slice_length.
    by rewrite (Hcols r Hin).
Qed.

Lemma zeros_wf n : 0 ≤ n → wf (zeros n).
Proof.
  intros Hn. split_and!; simpl.
  - rewrite length_replicate. lia.
  - done.
  - apply Forall_replicate. rewrite length_replicate. lia.
Qed.

Lemma overwrite_length {A} (src dst : list A) :
  (length src ≤ length dst)%nat → length (overwrite src dst) = length dst.
Proof.
  intros H. unfold overwrite. rewrite length_app, length_drop. lia.
Qed.

Lemma overwrite_lookup {A} (src dst : list A) (i : nat) :
  overwrite src dst !! i
  = if decide (i < length src)%nat then src !! i else dst !! i.
Proof.
  unfold overwrite. case_decide.
  - by apply lookup_app_l.
  - rewrite lookup_app_r, lookup_drop by lia. f_equal. lia.
Qed.

(** A source no larger than the canvas is always accepted. *)
Lemma assign_top_left_fits dst src :
  0 ≤ shape0 src ≤ shape0 dst → 0 ≤ shape1 src ≤ shape1 dst →
  assign_top_left dst src
  = Some {| shape0 := shape0 dst; shape1 := shape1 dst;
            rows := zip_with overwrite (rows src)
                      (take (length (rows src)) (rows dst))
                    ++ drop (length (rows src)) (rows dst) |}.
Proof.
  intros H0 H1. unfold assign_top_left, broadcastable.
  rewrite !slice_len_nonneg by lia.
  replace (Z.max 0 (Z.min (shape0 src) (shape0 dst) - Z.min 0 (shape0 dst)))
    with (shape0 src) by lia.
  replace (Z.max 0 (Z.min (shape1 src) (shape1 dst) - Z.min 0 (shape1 dst)))
    with (shape1 src) by lia.
  by rewrite !Z.eqb_refl.
Qed.

Lemma assign_top_left_wf dst src out :
  wf dst → wf src →
  shape0 src ≤ shape0 dst → shape1 src ≤ shape1 dst →
  assign_top_left dst src = Some out →
  wf out ∧ shape0 out = shape0 dst ∧ shape1 out = shape1 dst.
Proof.
  intros (Hd0 & Hdw & Hd1) (Hs0 & Hsw & Hs1) H0 H1 Hout.
  rewrite assign_top_left_fits in Hout by lia.
  injection Hout as <-. split; [|done]. split_and!; simpl.
  - rewrite length_app, length_zip_with, length_take, length_drop. lia.
  - done.
  - apply Forall_app. split.
    + apply Forall_lookup. intros i r Hr.
      apply lookup_zip_with_Some in Hr as (s & d & -> & Hs & Hd).
      apply lookup_take_Some in Hd as [Hd _].
      eapply Forall_lookup_1 in Hs1; [|done].
      eapply Forall_lookup_1 in Hd1; [|done]. simpl in *.
      rewrite overwrite_length; lia.
    + by apply Forall_drop.
Qed.

(** The pixels of the canvas after the assignment: the source in the
    top-left block, the canvas elsewhere. *)
Lemma assign_top_left_pixel dst src out r c :
  wf dst → wf src →
  shape0 src ≤ shape0 dst → shape1 src ≤ shape1 dst →
  assign_top_left dst src = Some out →
  0 ≤ r < shape0 dst → 0 ≤ c < shape1 dst →
  pixel_at out r c
  = if (r <? shape0 src) && (c <? shape1 src)
    then pixel_at src r c else pixel_at dst r c.
Proof.
  intros (Hd0 & Hdw & Hd1) (Hs0 & Hsw & Hs1) H0 H1 Hout Hr Hc.
  rewrite assign_top_left_fits in Hout by lia.
  injection Hout as <-. unfold pixel_at; simpl.
  replace (0 <=? r) with true by lia. replace (0 <=? c) with true by lia.
  simpl. destruct (Z.ltb_spec r (shape0 src)) as [Hrs|Hrs]; simpl.
  - destruct (lookup_lt_is_Some_2 (rows src) (Z.to_nat r)) as [s Hs];
      [lia|].
    destruct (lookup_lt_is_Some_2 (rows dst) (Z.to_nat r)) as [d Hd];
      [lia|].
    rewrite lookup_app_l
      by (rewrite length_zip_with, length_take; lia).
    rewrite lookup_zip_with, Hs, lookup_take_lt, Hd by lia. simpl.
    eapply Forall_lookup_1 in Hs1; [|done].
    eapply Forall_lookup_1 in Hd1; [|done]. simpl in *.
    rewrite overwrite_lookup.
    destruct (Z.ltb_spec c (shape1 src)); case_decide; (done || lia).
  - rewrite lookup_app_r
      by (rewrite length_zip_with, length_take; lia).
    rewrite length_zip_with, length_take, lookup_drop.
    do 2 f_equal. lia.
Qed.

Lemma zeros_pixel n r c :
  0 ≤ r < n → 0 ≤ c < n → pixel_at (zeros n) r c = Some black.
Proof.
  intros Hr Hc. unfold pixel_at, zeros; simpl.
  replace (0 <=? r) with true by lia. replace (0 <=? c) with true by lia.
  simpl. rewrite lookup_replicate_2 by lia. simpl.
  by rewrite lookup_replicate_2 by lia.
Qed.

(** The pixels of a slice with bounds [0 ≤ lo] and [0 ≤ hi]. *)
Lemma slice2_pixel a y1 y2 x1 x2 r c :
  wf a → 0 ≤ y1 → 0 ≤ y2 → 0 ≤ x1 → 0 ≤ x2 →
  0 ≤ r < shape0 (slice2 a y1 y2 x1 x2) →
  0 ≤ c < shape1 (slice2 a y1 y2 x1 x2) →
  pixel_at (slice2 a y1 y2 x1 x2) r c = pixel_at a (y1 + r) (x1 + c).
Proof.
  intros (Ha0 & Haw & Ha1) Hy1 Hy2 Hx1 Hx2. simpl.
  rewrite !slice_len_nonneg by lia. intros Hr Hc.
  unfold pixel_at; simpl.
  replace (0 <=? r) with true by lia. replace (0 <=? c) with true by lia.
  replace (0 <=? y1 + r) with true by lia.
  replace (0 <=? x1 + c) with true by lia. simpl.
  rewrite list_lookup_fmap, slice_lookup
    by (rewrite Ha0, slice_len_nonneg; lia).
  rewrite Ha0, slice_bound_nonneg by lia.
  replace (Z.to_nat (Z.min y1 (shape0 a)) + Z.to_nat r)%nat
    with (Z.to_nat (y1 + r)) by lia.
  destruct (rows a !! Z.to_nat (y1 + r)) as [row|] eqn:Hrow; [|done].
  simpl. eapply Forall_lookup_1 in Ha1; [|done]. simpl in Ha1.
  rewrite slice_lookup by (rewrite Ha1, slice_len_nonneg; lia).
  rewrite Ha1, slice_bound_nonneg by lia. f_equal. lia.
Qed.

End NdarrayFacts.

(** ** The crop exporter *)

Module CropFacts.
Import Ndarray NdarrayFacts Crop CropSpec.

(** For a centre in the first quadrant the bounds of the slice are not
    negative, so the slice is the window cut to the frame. *)
Lemma crop_region_shape s cx cy frame :
  0 ≤ s → 0 ≤ cx → 0 ≤ cy → wf frame →
  let '(y1, y2, x1, x2) := crop_bounds s cx cy frame in
  0 ≤ y1 ∧ 0 ≤ y2 ∧ 0 ≤ x1 ∧ 0 ≤ x2 ∧
  shape0 (crop_region s cx cy frame) = Z.max 0 (y2 - y1) ∧
  shape1 (crop_region s cx cy frame) = Z.max 0 (x2 - x1) ∧
  shape0 (crop_region s cx cy frame) ≤ 2 * (s / 2) ∧
  shape1 (crop_region s cx cy frame) ≤ 2 * (s / 2).
Proof.
  intros Hs Hx Hy (H0 & H1 & _).
  unfold crop_region, crop_bounds, slice2; cbn [shape0 shape1].
  assert (0 ≤ s / 2) as Hhalf by (apply Z.div_pos; lia).
  generalize dependent (s / 2). intros half Hhalf.
  rewrite 2!slice_len_nonneg by lia. split_and!; lia.
Qed.

Lemma crop_region_wf s cx cy frame :
  wf frame → wf (crop_region s cx cy frame).
Proof. intros Hf. unfold crop_region, crop_bounds. by apply slice2_wf. Qed.

Lemma half_bounds s : 0 < s → 0 ≤ s / 2 ∧ 2 * (s / 2) ≤ s.
Proof.
  intros Hs. split; [apply Z.div_pos; lia | apply Z.mul_div_le; lia].
Qed.


(** The frame handed to the writer, for a centre in the first quadrant:
    it is [s × s] and holds the clipped block in its top-left corner. *)
Lemma crop_frame_spec s cx cy frame :
  0 < s → 0 ≤ cx → 0 ≤ cy → wf frame →
  ∃ out, crop_frame s cx cy frame = Some out ∧ square s out ∧
         top_left_block s cx cy frame out.
Proof.
  intros Hs Hx Hy Hf.
  pose proof (crop_region_shape s cx cy frame) as Hsh.
  pose proof (crop_region_wf s cx cy frame Hf) as Hr.
  destruct (half_bounds s Hs) as [Hhalf Hle].
  unfold top_left_block.
  assert (crop_region s cx cy frame
          = let '(y1, y2, x1, x2) := crop_bounds s cx cy frame in
            slice2 frame y1 y2 x1 x2) as Hreg by done.
  destruct (crop_bounds s cx cy frame) as [[[y1 y2] x1] x2] eqn:Hb.
  destruct Hsh as (Hy1 & Hy2 & Hx1 & Hx2 & Hh & Hw & Hhs & Hws);
    [lia | done | done | done |].
  set (region := crop_region s cx cy frame) in *.
  assert (∀ r c, 0 ≤ r < shape0 region → 0 ≤ c < shape1 region →
                 pixel_at region r c = pixel_at frame (y1 + r) (x1 + c))
    as Hpix.
  { intros r c Hrr Hcc. rewrite Hreg in *. by apply slice2_pixel. }
  unfold crop_frame. fold region.
  destruct (negb (shape0 region =? s) || negb (shape1 region =? s))
    eqn:Hpad.
  - assert (assign_top_left (zeros s) region
            = Some {| shape0 := s; shape1 := s;
                      rows := zip_with overwrite (rows region)
                                (take (length (rows region))
                                      (rows (zeros s)))
                              ++ drop (length (rows region))
                                      (rows (zeros s)) |}) as Hout.
    { rewrite assign_top_left_fits; [done | |];
        destruct Hr as (? & ? & _); cbn [zeros shape0 shape1]; lia. }
    eexists. split; [exact Hout|].
    pose proof (assign_top_left_wf _ _ _ (zeros_wf s ltac:(lia)) Hr
                  ltac:(cbn [zeros shape0 shape1]; lia)
                  ltac:(cbn [zeros shape0 shape1]; lia) Hout)
      as (Hwf & Hs0 & Hs1).
    split; [done|]. intros r c Hrs Hcs.
    rewrite (assign_top_left_pixel _ _ _ r c (zeros_wf s ltac:(lia)) Hr
               ltac:(cbn [zeros shape0 shape1]; lia)
               ltac:(cbn [zeros shape0 shape1]; lia) Hout) by done.
    rewrite Hh, Hw.
    replace (r <? Z.max 0 (y2 - y1)) with (r <? y2 - y1) by lia.
    replace (c <? Z.max 0 (x2 - x1)) with (c <? x2 - x1) by lia.
    destruct (Z.ltb_spec r (y2 - y1)), (Z.ltb_spec c (x2 - x1)); simpl;
      [apply Hpix; lia | by apply zeros_pixel..].
  - apply orb_false_elim in Hpad as [Ha Hb'].
    apply negb_false_iff in Ha, Hb'.
    exists region. split; [done|]. split; [split; [done | lia]|].
    intros r c Hrs Hcs.
    replace (r <? y2 - y1) with true by lia.
    replace (c <? x2 - x1) with true by lia. simpl. apply Hpix; lia.
Qed.

(** The decode pass keeps any property of frames that every crop has. *)
Section Pass.
Variable s : Z.
Variable P : ndarray → Prop.
Hypothesis crops_P : ∀ cx cy frame,
  0 ≤ cx → 0 ≤ cy → wf frame →
  ∃ out, crop_frame s cx cy frame = Some out ∧ P out.

Lemma write_crops_fed k frame ws :
  wf frame → Forall (fed P k) ws →
  ∃ ws', write_crops s frame ws = inr ws' ∧
         length ws' = length ws ∧ Forall (fed P (S k)) ws'.
Proof.
  intros Hf Hws. unfold write_crops.
  induction Hws as [|w ws ([Hx Hy] & Hk & Hsq) _ IH]; simpl.
  - by exists [].
  - destruct (crops_P (center w).1 (center w).2 frame)
      as (out & -> & Hout); [done..|]. simpl.
    destruct IH as (ws' & IH & Hlen & Hfed).
    destruct (mapM _ ws) as [ws''|]; [|done]. injection IH as ->.
    exists (write w out :: ws'). simpl.
    split_and!; [done | by f_equal |].
    constructor; [|done]. split_and!; simpl; [done | done | |].
    + rewrite length_app. simpl. lia.
    + apply Forall_app. split; [done|]. by constructor.
Qed.

Lemma decode_pass_fed n frames : ∀ k ws,
  Forall wf frames → Forall (fed P k) ws →
  ∃ ws', decode_pass s n frames ws = inr ws' ∧
         length ws' = length ws ∧
         Forall (fed P (k + (n `min` length frames))) ws'.
Proof.
  revert frames. induction n as [|n IH]; intros frames k ws Hf Hws.
  - exists ws. simpl. rewrite Nat.add_0_r. by destruct frames.
  - destruct frames as [|frame rest]; simpl.
    + exists ws. by rewrite Nat.add_0_r.
    + apply Forall_cons in Hf as [Hframe Hrest].
      destruct (write_crops_fed k frame ws) as (ws1 & -> & Hlen & Hfed);
        [done..|].
      destruct (IH rest (S k) ws1) as (ws' & -> & Hlen' & Hfed');
        [done..|].
      exists ws'. split_and!; [done | congruence |].
      by replace (k + S (n `min` length rest))%nat
        with (S k + (n `min` length rest))%nat by lia.
Qed.

Lemma open_writers_fed v sel :
  Forall (λ c, 0 ≤ c.1 ∧ 0 ≤ c.2) sel →
  Forall (fed P 0) (open_writers v sel s).
Proof.
  intros Hsel. unfold open_writers. apply Forall_lookup. intros i w Hw.
  apply list_lookup_imap_Some in Hw as (c & Hc & ->).
  eapply Forall_lookup_1 in Hsel; [|done].
  unfold fed; simpl. by split_and!; [apply Hsel.. | | constructor].
Qed.

Lemma export_fed v sel :
  on_disk v = true → is_opened v = true →
  Forall wf (decoded v) →
  Forall (λ c, 0 ≤ c.1 ∧ 0 ≤ c.2) sel →
  ∃ ws,
    export_selected_beads v sel s = inr ws ∧
    length ws = length sel ∧
    Forall (λ w,
              length (written w)
              = (Z.to_nat (frame_count v) `min` length (decoded v))%nat ∧
              Forall P (written w)) ws.
Proof.
  intros Hdisk Hopen Hframes Hsel.
  unfold export_selected_beads. rewrite Hdisk, Hopen. simpl.
  destruct (decode_pass_fed (Z.to_nat (frame_count v)) (decoded v) 0
              (open_writers v sel s)) as (ws & Hws & Hlen & Hfed);
    [done | by apply open_writers_fed |].
  exists ws. split_and!; [done | |].
  - rewrite Hlen. unfold open_writers. apply length_imap.
  - eapply Forall_impl; [done|]. by intros w (_ & Hk & Hsq).
Qed.
End Pass.

(** The condition on the centres in the theorems below cannot be dropped:
    a negative bound of a slice counts from the end of the axis, so for the
    centre [(-2, 1)] and crop size 2 the region [frame4[0:2, 0:-1]] is three
    pixels wide and the assignment into the 2 x 2 canvas raises. *)
Remark negative_centre_raises :
  shape1 (crop_region 2 (-2) 1 frame4) = 3 ∧
  crop_frame 2 (-2) 1 frame4 = None.
Proof. by vm_compute. Qed.


Lemma frame4_wf : wf frame4.
Proof. split_and!; [done | done | by repeat constructor]. Qed.


(** C2, as stated, fails: with crop size 4 and the centre [(1, 1)] the
    window [[-1, 3) × [-1, 3)] is clipped at the top and at the left; the
    frame pixel [(0, 0)] lies in the window at the relative position
    [(1, 1)], but the exported frame holds the frame pixel [(1, 1)]
    there. *)
Lemma clipped_block_not_window_relative :
  ∃ out, crop_frame 4 1 1 frame4 = Some out ∧
         ¬ window_relative 4 1 1 frame4 out.
Proof.
  eexists. split; [vm_compute; reflexivity|].
  intros H. specialize (H 0 0). vm_compute in H.
  assert (Some (1, 1, 0) = Some (0, 0, 0)) as Habs; [|discriminate Habs].
  apply H; (split; [discriminate | reflexivity]).
Qed.

(** C2, amended.  For a crop size [s > 0] and a centre [(cx, cy)] in the
    first quadrant, the crop exporter copies the clipped block of the
    window [[cx - half, cx + half) × [cy - half, cy + half)] into the zero
    canvas at the top-left corner of the canvas: the output pixel
    [(r, c)] is the frame pixel [(y1 + r, x1 + c)] inside the block and
    zero outside it.  Hence every frame pixel inside the window appears
    at its window-relative position when the window is not clipped at the
    top or at the left ([half ≤ cx] and [half ≤ cy]). *)
Theorem clipped_block_at_top_left s cx cy frame :
  0 < s → 0 ≤ cx → 0 ≤ cy → wf frame →
  ∃ out, crop_frame s cx cy frame = Some out ∧
         top_left_block s cx cy frame out ∧
         (s / 2 ≤ cx → s / 2 ≤ cy → window_relative s cx cy frame out).
Proof.
  intros Hs Hx Hy Hf.
  destruct (crop_frame_spec s cx cy frame) as (out & Hout & _ & Hblock);
    [done..|].
  exists out. split_and!; [done | done |].
  intros Hcx Hcy r c Hr Hc Hwr Hwc.
  destruct (half_bounds s Hs) as [Hhalf Hle].
  unfold top_left_block, crop_bounds in Hblock.
  generalize dependent (s / 2). intros half Hblock Hcx Hcy Hwr Hwc Hhalf Hle.
  rewrite Hblock by lia.
  replace (r - (cy - half) <? (cy + half) `min` shape0 frame
                             - 0 `max` (cy - half)) with true by lia.
  replace (c - (cx - half) <? (cx + half) `min` shape1 frame
                             - 0 `max` (cx - half)) with true by lia.
  simpl. f_equal; lia.
Qed.

Lemma clipped_block_at_top_left_witness :
  ∃ out, crop_frame 4 3 2 frame4 = Some out ∧
         top_left_block 4 3 2 frame4 out ∧
         (4 / 2 ≤ 3 → 4 / 2 ≤ 2 → window_relative 4 3 2 frame4 out).
Proof.
  apply (clipped_block_at_top_left 4 3 2 frame4).
  - lia.
  - lia.
  - lia.
  - apply frame4_wf.
Defined.



End CropFacts.

(** ** The selection commands *)

Module ExplorerFacts.
Import Ndarray Crop Explorer ExplorerSpec.

Lemma add_custom_rectangle_accepts st x y scale :
  0 < x → 0 < y → get_scale st = Some scale →
  add_custom_rectangle st (Some x) (Some y)
  = set_centers st
      (detected_centers st
       ++ [((fmul (of_int x) scale, fmul (of_int y) scale), true)]).
Proof.
  intros Hx Hy Hscale. unfold add_custom_rectangle. simpl.
  replace (0 <? x) with true by lia. replace (0 <? y) with true by lia.
  by rewrite Hscale.
Qed.

Lemma add_custom_rectangle_rejects st new_x new_y :
  ¬ (positive new_x ∧ positive new_y) →
  add_custom_rectangle st new_x new_y = st.
Proof.
  intros Hneg. unfold add_custom_rectangle.
  destruct new_x as [x|]; simpl; [|done].
  destruct (Z.ltb_spec 0 x) as [Hx|Hx]; [|done].
  destruct new_y as [y|]; simpl; [|done].
  destruct (Z.ltb_spec 0 y) as [Hy|Hy]; [|done].
  destruct Hneg. split; eexists; eauto.
Qed.



(** A click never moves, adds or removes a candidate. *)
Lemma on_canvas_click_keeps_centers st x y scale :
  width_scale st = Some scale →
  ∃ st', on_canvas_click st x y = Some st' ∧
         fst <$> detected_centers st' = fst <$> detected_centers st ∧
         video_paths st' = video_paths st ∧
         current_index st' = current_index st ∧
         crop_size st' = crop_size st.
Proof.
  intros Hscale. unfold on_canvas_click. rewrite Hscale. simpl.
  destruct (list_find _ _) as [[i [center clicked]]|] eqn:Hfind.
  - apply list_find_Some in Hfind as (Hi & _ & _).
    eexists. split; [done|]. simpl. split_and!; try done.
    rewrite list_fmap_insert. apply list_insert_id.
    rewrite list_lookup_fmap. exact (f_equal (fmap fst) Hi).
  - by exists st.
Qed.



Section DetectionFacts.
Variable resize : ndarray → Z → Z → ndarray.
Variable detect_beads : ndarray → list (Z * Z).

End DetectionFacts.


(** C4.  The code does not use one scale.  [get_scale], which places a
    manual entry and sizes the drawn rectangle, is
    [min(960 / width, 540 / height)]; the hit test of [on_canvas_click]
    and [on_canvas_right_click] and the mapping of [export] use
    [960 / width] alone.  On a 960 x 1080 video the first is 1/2 and the
    second is 1: the entry [(100, 200)] is stored at [(50, 100)] and drawn
    as the rectangle [[25, 75] × [75, 125]], a left click or a right click
    at [(90, 100)], outside that rectangle, toggles or removes the
    candidate, and the exporter receives the centre [(50, 100)] instead
    of [(100, 200)]. *)
Theorem width_scale_differs_from_get_scale :
  get_scale explorer_tall = Some (1 # 2)%Q ∧
  width_scale explorer_tall = Some 1%Q ∧
  detected_centers (add_custom_rectangle explorer_tall (Some 100) (Some 200))
  = [((50%Q, 100%Q), true)] ∧
  draw_rectangle (add_custom_rectangle explorer_tall (Some 100) (Some 200))
    (50%Q, 100%Q)
  = Some (25%Q, 75%Q, 75%Q, 125%Q) ∧
  on_canvas_click
    (add_custom_rectangle explorer_tall (Some 100) (Some 200)) 90 100
  = Some (set_centers explorer_tall [((50%Q, 100%Q), false)]) ∧
  on_canvas_right_click
    (add_custom_rectangle explorer_tall (Some 100) (Some 200)) 90 100
  = Some explorer_tall ∧
  selected_centers
    (add_custom_rectangle explorer_tall (Some 100) (Some 200))
  = Some [(50, 100)].
Proof. by vm_compute. Qed.

(** C5, as stated, fails: the candidate appended for the entry
    [(100, 200)] carries the flag [True]. *)
Lemma manual_candidate_not_unselected :
  detected_centers (add_custom_rectangle explorer_hd (Some 100) (Some 200))
  = detected_centers explorer_hd ++ [((50%Q, 100%Q), true)] ∧
  ¬ (∃ center,
       detected_centers
         (add_custom_rectangle explorer_hd (Some 100) (Some 200))
       = detected_centers explorer_hd ++ [(center, false)]).
Proof.
  split; [by vm_compute|].
  intros [center H]. vm_compute in H. discriminate H.
Qed.

(** C5, amended.  [add_custom_rectangle] with positive integer
    coordinates appends exactly one candidate, whose selected flag is
    true, to the end of the candidate list and changes nothing else; for
    coordinates that are not both positive integers it leaves the whole
    state unchanged. *)
Theorem manual_candidate_appended_selected st new_x new_y :
  (∀ x y scale,
     new_x = Some x → new_y = Some y → 0 < x → 0 < y →
     get_scale st = Some scale →
     ∃ center,
       add_custom_rectangle st new_x new_y
       = set_centers st (detected_centers st ++ [(center, true)])) ∧
  (¬ (positive new_x ∧ positive new_y) →
   add_custom_rectangle st new_x new_y = st).
Proof.
  split.
  - intros x y scale -> -> Hx Hy Hscale. eexists.
    by apply add_custom_rectangle_accepts.
  - apply add_custom_rectangle_rejects.
Qed.

Lemma manual_candidate_appended_selected_witness :
  (∃ center,
     add_custom_rectangle explorer_hd (Some 100) (Some 200)
     = set_centers explorer_hd
         (detected_centers explorer_hd ++ [(center, true)])) ∧
  add_custom_rectangle explorer_hd (Some 0) (Some 200) = explorer_hd.
Proof.
  split.
  - apply (proj1 (manual_candidate_appended_selected explorer_hd
                    (Some 100) (Some 200)) 100 200 (1 # 2)%Q);
      [reflexivity | reflexivity | lia | lia | reflexivity].
  - apply (proj2 (manual_candidate_appended_selected explorer_hd
                    (Some 0) (Some 200))).
    intros [(z & Hz & Hpos) _]. injection Hz as <-. lia.
Defined.




(** C7.  [update_crop_size] sets the crop size to the entered integer
    exactly when that integer is positive; any other input leaves the
    whole state unchanged; and whatever the input, the candidate list
    (its length, order, centres and flags), the catalog and the current
    video stay as they were. *)
Theorem crop_size_update_keeps_candidates st text :
  (∀ n, text = Some n → 0 < n →
        update_crop_size st text = set_crop_size st n) ∧
  (¬ positive text → update_crop_size st text = st) ∧
  detected_centers (update_crop_size st text) = detected_centers st ∧
  video_paths (update_crop_size st text) = video_paths st ∧
  current_index (update_crop_size st text) = current_index st.
Proof.
  unfold update_crop_size. destruct text as [n|]; [|by split_and!].
  destruct (Z.ltb_spec 0 n) as [Hn|Hn]; split_and!; try done.
  - by intros m [= ->] _.
  - intros Hneg. destruct Hneg. by exists n.
  - intros m [= ->] Hm. lia.
Qed.

Lemma crop_size_update_keeps_candidates_witness :
  update_crop_size explorer_720 (Some 64) = set_crop_size explorer_720 64 ∧
  update_crop_size explorer_720 (Some 0) = explorer_720 ∧
  update_crop_size explorer_720 None = explorer_720 ∧
  detected_centers (update_crop_size explorer_720 (Some 64))
  = detected_centers explorer_720.
Proof.
  split_and!.
  - apply (proj1 (crop_size_update_keeps_candidates explorer_720 (Some 64))
             64); [reflexivity | lia].
  - apply (proj1 (proj2 (crop_size_update_keeps_candidates explorer_720
                           (Some 0)))).
    intros (z & Hz & Hpos). injection Hz as <-. lia.
  - apply (proj1 (proj2 (crop_size_update_keeps_candidates explorer_720
                           None))).
    intros (z & Hz & _). discriminate Hz.
  - apply (proj1 (proj2 (proj2 (crop_size_update_keeps_candidates
                                  explorer_720 (Some 64))))).
Defined.

End ExplorerFacts.

(** ** The batch export *)

Module BatchFacts.
Import Ndarray Crop Explorer Batch ExplorerSpec.

(** The loop over the completed futures: one [update(1)] per future, and
    one printed line per future that raised, in the order of
    completion. *)
Lemma foldl_collect l : ∀ calls printed,
  foldl collect (calls, printed) l
  = (calls ++ replicate (length l) (Update 1), printed ++ omap failure l).
Proof.
  induction l as [|f l IH]; intros calls printed; simpl.
  - by rewrite !app_nil_r.
  - unfold collect at 2, failure at 1. simpl.
    destruct (result f) as [exc|ws]; rewrite IH; simpl;
      by rewrite <- !app_assoc.
Qed.

Lemma submit_all_videos st sel :
  video_file <$> submit_all st sel
  = take (S (current_index st)) (video_paths st).
Proof.
  unfold submit_all. rewrite <- list_fmap_compose. apply list_fmap_id.
Qed.

Lemma submit_all_results st sel f :
  f ∈ submit_all st sel →
  result f = export_selected_beads (video_file f) sel (crop_size st).
Proof.
  unfold submit_all. intros Hf.
  apply list_elem_of_fmap in Hf as (v & -> & _). done.
Qed.

Section PoolFacts.
Variable as_completed : list future → list future.
(** The pool yields every submitted future once, in some order. *)
Hypothesis as_completed_perm : ∀ fs, as_completed fs ≡ₚ fs.

(** C8.  When some centre is selected, [export] submits one task for
    every video up to the current one; the result of each task is that
    of [export_selected_beads] on its own video, whatever the other
    tasks do; the progress sink is reset to the number of videos,
    updated by one exactly once per submitted task, whether the task
    returned or raised, and then set to done; and one line is printed
    for each task that raised and for no other, with the name of its
    video and the exception. *)
Theorem batch_isolates_failures st sel :
  selected_centers st = Some sel → sel ≠ [] →
  ∃ r,
    export as_completed st = Some r ∧
    video_file <$> submitted r
    = take (S (current_index st)) (video_paths st) ∧
    (∀ f, f ∈ submitted r →
          result f
          = export_selected_beads (video_file f) sel (crop_size st)) ∧
    calls r
    = Reset (Z.of_nat (current_index st) + 1)
      :: replicate (length (submitted r)) (Update 1)
      ++ [SetDone; Refresh] ∧
    printed r ≡ₚ omap failure (submitted r).
Proof.
  intros Hsel Hne. unfold export. rewrite Hsel. simpl.
  destruct sel as [|c sel]; [done|].
  rewrite foldl_collect. eexists. split; [done|]. simpl.
  split_and!.
  - apply submit_all_videos.
  - intros f. apply submit_all_results.
  - by rewrite (Permutation_length (as_completed_perm _)).
  - by rewrite (as_completed_perm _).
Qed.
End PoolFacts.

Lemma batch_isolates_failures_witness :
  ∃ r,
    export reverse explorer_batch = Some r ∧
    video_file <$> submitted r
    = take 3 (video_paths explorer_batch) ∧
    (∀ f, f ∈ submitted r →
          result f
          = export_selected_beads (video_file f) [(100, 100)] 100) ∧
    calls r
    = Reset (Z.of_nat 2 + 1)
      :: replicate (length (submitted r)) (Update 1)
      ++ [SetDone; Refresh] ∧
    printed r ≡ₚ omap failure (submitted r).
Proof.
  apply (batch_isolates_failures reverse reverse_Permutation
           explorer_batch [(100, 100)]).
  - reflexivity.
  - discriminate.
Defined.

End BatchFacts.

(** ** What each writer is given *)

Module ExporterFacts.
Import Ndarray NdarrayFacts Crop CropSpec CropFacts SessionSpec.

Lemma fed_with_nil w : fed_with w [] = w.
Proof. destruct w. unfold fed_with. simpl. by rewrite app_nil_r. Qed.

Lemma fed_with_app w outs outs' :
  fed_with (fed_with w outs) outs' = fed_with w (outs ++ outs').
Proof. unfold fed_with. simpl. by rewrite app_assoc. Qed.

(** A pixel inside a well-formed image exists. *)
Lemma pixel_at_is_Some a r c :
  wf a → 0 ≤ r < shape0 a → 0 ≤ c < shape1 a → is_Some (pixel_at a r c).
Proof.
  intros (H0 & _ & H1) Hr Hc. unfold pixel_at.
  replace (0 <=? r) with true by lia. replace (0 <=? c) with true by lia.
  simpl.
  destruct (lookup_lt_is_Some_2 (rows a) (Z.to_nat r)) as [row Hrow]; [lia|].
  rewrite Hrow. simpl. apply lookup_lt_is_Some_2.
  eapply Forall_lookup_1 in H1; [|done]. simpl in H1. lia.
Qed.

Lemma write_crops_step s frame ws ws' :
  write_crops s frame ws = inr ws' →
  Forall2 (λ w w', ∃ out,
             crop_frame s (center w).1 (center w).2 frame = Some out ∧
             w' = fed_with w [out]) ws ws'.
Proof.
  unfold write_crops. destruct (mapM _ ws) as [l|] eqn:Hl; [|done].
  intros [= <-]. apply mapM_Some in Hl.
  eapply Forall2_impl; [done|]. simpl. intros w w' Hw.
  destruct (crop_frame s (center w).1 (center w).2 frame) as [out|]; [|done].
  injection Hw as <-. by exists out.
Qed.

Lemma write_crops_error s frame ws e :
  write_crops s frame ws = inl e → e = ValueError.
Proof. unfold write_crops. destruct (mapM _ ws); congruence. Qed.

(** A pass appends to every writer the crops of the frames read, in the
    order of the frames, at the centre of that writer. *)
Lemma decode_pass_crops s n : ∀ frames ws ws',
  decode_pass s n frames ws = inr ws' →
  Forall2 (λ w w', ∃ outs,
             crops s (center w) (take n frames) = Some outs ∧
             w' = fed_with w outs) ws ws'.
Proof.
  induction n as [|n IH]; intros frames ws ws' Hpass.
  - assert (ws' = ws) as -> by (destruct frames; simpl in Hpass; congruence).
    apply Forall2_same_length_lookup_2; [done|].
    intros i w w' Hw Hw'. exists []. rewrite take_0, fed_with_nil.
    split; [done | congruence].
  - destruct frames as [|frame rest]; simpl in Hpass.
    + injection Hpass as <-.
      apply Forall2_same_length_lookup_2; [done|].
      intros i w w' Hw Hw'. exists []. rewrite take_nil, fed_with_nil.
      split; [done | congruence].
    + destruct (write_crops s frame ws) as [e|ws1] eqn:Hstep; [done|].
      apply write_crops_step in Hstep. apply IH in Hpass.
      eapply Forall2_trans; [|done..].
      intros w w1 w' (out & Hout & ->) (outs & Houts & ->).
      exists (out :: outs). rewrite fed_with_app. split; [|done].
      unfold crops in *. simpl in *. by rewrite Hout, Houts.
Qed.

Lemma decode_pass_error s n : ∀ frames ws e,
  decode_pass s n frames ws = inl e → e = ValueError.
Proof.
  induction n as [|n IH]; intros frames ws e Hpass.
  - by destruct frames.
  - destruct frames as [|frame rest]; simpl in Hpass; [done|].
    destruct (write_crops s frame ws) as [e'|ws1] eqn:Hstep.
    + injection Hpass as <-. by eapply write_crops_error.
    + by eapply IH.
Qed.

Lemma decode_pass_no_writers s n : ∀ frames,
  decode_pass s n frames [] = inr [].
Proof.
  induction n as [|n IH]; intros [|frame rest]; simpl; done.
Qed.

(** X1.  For a crop size [s > 0], a readable video and selected centres
    without negative coordinates, [export_selected_beads] returns one
    writer per selected centre, in the order of the selection: the writer
    of the centre at position [i] is numbered [i + 1], has the frame rate
    of the source and the frame size [(s, s)], and has been given the
    crops at its own centre of the first [frame_count] decoded frames, in
    the order of the frames.  What a writer is given does not depend on
    the other centres. *)
Theorem exporter_writes_crops_in_order v sel s :
  0 < s → readable v → nonneg_points sel →
  ∃ ws,
    export_selected_beads v sel s = inr ws ∧
    length ws = length sel ∧
    ∀ i c, sel !! i = Some c →
      ∃ outs,
        crops s c (take (Z.to_nat (frame_count v)) (decoded v)) = Some outs ∧
        ws !! i = Some {| bead := S i; source := video_path v;
                          writer_fps := fps v; frame_size := (s, s);
                          center := c; written := outs |}.
Proof.
  intros Hs (Hdisk & Hopen & Hframes) Hsel.
  destruct (export_fed s (λ _, True)) with (v := v) (sel := sel)
    as (ws & Hws & Hlen & _); [|done..|].
  { intros cx cy frame Hx Hy Hf.
    destruct (crop_frame_spec s cx cy frame) as (out & Hout & _);
      [done..|]. by exists out. }
  exists ws. split_and!; [done..|]. intros i c Hc.
  unfold export_selected_beads in Hws. rewrite Hdisk, Hopen in Hws.
  simpl in Hws. apply decode_pass_crops in Hws.
  eapply Forall2_lookup_l in Hws as (w & Hw & outs & Houts & ->).
  2:{ unfold open_writers. rewrite list_lookup_imap, Hc. done. }
  exists outs. simpl in *. done.
Qed.

Lemma exporter_writes_crops_in_order_witness :
  ∃ ws,
    export_selected_beads video4 [(1, 1); (3, 0)] 3 = inr ws ∧
    length ws = 2%nat ∧
    ∀ i c, [(1, 1); (3, 0)] !! i = Some c →
      ∃ outs,
        crops 3 c (take (Z.to_nat 2) [frame4; frame4]) = Some outs ∧
        ws !! i = Some {| bead := S i; source := "a.mp4";
                          writer_fps := 30; frame_size := (3, 3);
                          center := c; written := outs |}.
Proof.
  apply (exporter_writes_crops_in_order video4 [(1, 1); (3, 0)] 3).
  - lia.
  - split_and!; [reflexivity | reflexivity |].
    repeat first [apply frame4_wf | constructor].
  - repeat constructor; simpl; lia.
Defined.

Lemma even_half s : Z.even s = true → 2 * (s / 2) = s.
Proof.
  intros Heven. rewrite (Z.div2_odd s) at 2.
  rewrite <- Z.negb_even, Heven, Z.div2_div. simpl. lia.
Qed.

(** X2.  For an even crop size [s > 0] and a centre at least [s / 2]
    pixels away from every edge of the frame, nothing is padded: the
    frame handed to the writer is the slice
    [frame[cy - s/2 : cy + s/2, cx - s/2 : cx + s/2]] itself, it is
    [s × s], and each of its pixels is the source pixel at the same
    position of the window. *)
Theorem even_interior_crop_is_window s cx cy frame :
  0 < s → Z.even s = true → wf frame →
  s / 2 ≤ cx → cx + s / 2 ≤ shape1 frame →
  s / 2 ≤ cy → cy + s / 2 ≤ shape0 frame →
  crop_frame s cx cy frame = Some (crop_region s cx cy frame) ∧
  square s (crop_region s cx cy frame) ∧
  ∀ r c, 0 ≤ r < s → 0 ≤ c < s →
    ∃ px, pixel_at frame (cy - s / 2 + r) (cx - s / 2 + c) = Some px ∧
          pixel_at (crop_region s cx cy frame) r c = Some px.
Proof.
  intros Hs Heven Hf Hx1 Hx2 Hy1 Hy2.
  pose proof (even_half s Heven) as Hhalf.
  pose proof (crop_region_shape s cx cy frame) as Hsh.
  pose proof (crop_region_wf s cx cy frame Hf) as Hwf.
  assert (crop_region s cx cy frame
          = let '(y1, y2, x1, x2) := crop_bounds s cx cy frame in
            slice2 frame y1 y2 x1 x2) as Hreg by done.
  unfold crop_bounds in Hsh, Hreg.
  destruct Hsh as (_ & _ & _ & _ & Hh & Hw & _); [lia..|done|].
  assert (shape0 (crop_region s cx cy frame) = s) as Hh' by lia.
  assert (shape1 (crop_region s cx cy frame) = s) as Hw' by lia.
  split_and!; [| exact (conj Hwf (conj Hh' Hw')) |].
  - unfold crop_frame. by rewrite Hh', Hw', !Z.eqb_refl.
  - intros r c Hr Hc.
    destruct (pixel_at_is_Some frame (cy - s / 2 + r) (cx - s / 2 + c))
      as [px Hpx]; [done | lia | lia |].
    exists px. split; [done|]. rewrite <- Hpx, Hreg.
    rewrite slice2_pixel; [f_equal; lia | done | lia.. | |];
      rewrite <- Hreg; lia.
Qed.

Lemma even_interior_crop_is_window_witness :
  crop_frame 2 2 2 frame4 = Some (crop_region 2 2 2 frame4) ∧
  square 2 (crop_region 2 2 2 frame4) ∧
  ∀ r c, 0 ≤ r < 2 → 0 ≤ c < 2 →
    ∃ px, pixel_at frame4 (2 - 2 / 2 + r) (2 - 2 / 2 + c) = Some px ∧
          pixel_at (crop_region 2 2 2 frame4) r c = Some px.
Proof.
  apply (even_interior_crop_is_window 2 2 2 frame4);
    [lia | reflexivity | apply frame4_wf | by vm_compute..].
Defined.

(** X3.  [export_selected_beads] tests the file before it opens it and
    before it looks at the selection: it raises [FileNotFoundError]
    exactly when the file does not exist, and the error of the capture
    exactly when the file exists and cannot be opened, whatever the
    selection and the crop size are.  With an empty selection a file that
    exists and opens is read through and no writer is made. *)
Theorem exporter_errors_by_file_state v sel s :
  (export_selected_beads v sel s = inl FileNotFoundError
   ↔ on_disk v = false) ∧
  (export_selected_beads v sel s = inl CvError
   ↔ on_disk v = true ∧ is_opened v = false) ∧
  (on_disk v = true ∧ is_opened v = true
   ↔ export_selected_beads v [] s = inr []).
Proof.
  unfold export_selected_beads.
  destruct (on_disk v), (is_opened v); simpl;
    try (split_and!; split; (done || by intros [??])).
  split_and!.
  - split; [|done]. intros Hpass. apply decode_pass_error in Hpass. done.
  - split; [|by intros [??]].
    intros Hpass. apply decode_pass_error in Hpass. done.
  - split; [|done]. intros _. apply decode_pass_no_writers.
Qed.

End ExporterFacts.

(** ** Clicks, the drawn rectangle and the two scales *)

Module SelectionFacts.
Import Ndarray Crop Explorer ExplorerSpec ExplorerFacts SessionSpec.

Lemma set_centers_same st : set_centers st (detected_centers st) = st.
Proof. by destruct st. Qed.

Lemma in_range_current_video st :
  in_range st → ∃ v, current_video st = Some v.
Proof. intros Hin. by apply lookup_lt_is_Some_2. Qed.

Lemma in_range_width_scale st :
  in_range st → ∃ scale, width_scale st = Some scale.
Proof.
  intros Hin. destruct (in_range_current_video st Hin) as [v Hv].
  unfold width_scale. rewrite Hv. simpl.
  destruct (get_frame_size v). by eexists.
Qed.

Lemma width_scale_set_centers st l :
  width_scale (set_centers st l) = width_scale st.
Proof. done. Qed.

(** The hit test reads the centre of a candidate, not its flag. *)
Lemma hit_flag half x y center clicked clicked' :
  hit half x y (center, clicked) = hit half x y (center, clicked').
Proof. done. Qed.

Lemma list_find_insert_found {A} (P : A → Prop) `{!∀ a, Decision (P a)}
    (l : list A) i a b :
  list_find P l = Some (i, a) → P b →
  list_find P (<[i := b]> l) = Some (i, b).
Proof.
  intros Hfind Hb. apply list_find_Some in Hfind as (Hi & _ & Hfirst).
  apply list_find_Some. split_and!; [|done|].
  - apply list_lookup_insert_eq. by eapply lookup_lt_Some.
  - intros j c Hj Hlt. rewrite list_lookup_insert_ne in Hj by lia. eauto.
Qed.

Lemma delete_insert_same {A} (l : list A) i a :
  delete i (<[i := a]> l) = delete i l.
Proof.
  revert i. induction l as [|b l IH]; intros [|i]; simpl; [done..|].
  f_equal. apply IH.
Qed.

(** X4.  A second left click at the same point undoes the first: the
    state after two clicks is the state before them. *)
Theorem double_click_restores st x y :
  in_range st →
  ∃ st', on_canvas_click st x y = Some st' ∧
         on_canvas_click st' x y = Some st.
Proof.
  intros Hin. destruct (in_range_width_scale st Hin) as [scale Hscale].
  unfold on_canvas_click. rewrite Hscale. simpl.
  destruct (list_find _ (detected_centers st))
    as [[i [center clicked]]|] eqn:Hfind.
  - eexists. split; [done|].
    rewrite width_scale_set_centers, Hscale. simpl.
    erewrite (list_find_insert_found _ _ i (center, clicked)
                (center, negb clicked)); [|done|].
    + rewrite list_insert_insert_eq, negb_involutive.
      apply list_find_Some in Hfind as (Hi & _).
      f_equal. destruct st as [vp ci dc cs]. unfold set_centers. simpl in *.
      f_equal. by apply list_insert_id.
    + apply list_find_Some in Hfind as (_ & Hhit & _). done.
  - exists st. split; [done|]. rewrite Hscale. simpl. by rewrite Hfind.
Qed.

Lemma double_click_restores_witness :
  ∃ st', on_canvas_click explorer_overlap 105 100 = Some st' ∧
         on_canvas_click st' 105 100 = Some explorer_overlap.
Proof.
  apply (double_click_restores explorer_overlap 105 100).
  unfold in_range. simpl. lia.
Defined.

(** X5.  A right click removes exactly the candidate that a left click
    at the same point toggles: the first candidate of the list whose box
    holds the point.  The list gets one shorter and the other candidates
    keep their order.  When no box holds the point neither click changes
    anything.  Toggling a candidate first does not change what the right
    click removes. *)
Theorem right_click_removes_click_target st x y :
  in_range st →
  ∃ scale,
    width_scale st = Some scale ∧
    ((∃ i center clicked,
        detected_centers st !! i = Some (center, clicked) ∧
        hit (half_side scale (crop_size st)) x y (center, clicked) = true ∧
        (∀ j c, detected_centers st !! j = Some c → (j < i)%nat →
                hit (half_side scale (crop_size st)) x y c = false) ∧
        on_canvas_click st x y
        = Some (set_centers st
                  (<[i := (center, negb clicked)]> (detected_centers st))) ∧
        on_canvas_right_click st x y
        = Some (set_centers st (delete i (detected_centers st))) ∧
        S (length (delete i (detected_centers st)))
        = length (detected_centers st)) ∨
     (Forall (λ c, hit (half_side scale (crop_size st)) x y c = false)
             (detected_centers st) ∧
      on_canvas_click st x y = Some st ∧
      on_canvas_right_click st x y = Some st)) ∧
    (∀ st', on_canvas_click st x y = Some st' →
            on_canvas_right_click st' x y = on_canvas_right_click st x y).
Proof.
  intros Hin. destruct (in_range_width_scale st Hin) as [scale Hscale].
  exists scale. split; [done|].
  unfold on_canvas_click, on_canvas_right_click. rewrite Hscale. simpl.
  destruct (list_find _ (detected_centers st))
    as [[i [center clicked]]|] eqn:Hfind.
  - split.
    + left. exists i, center, clicked.
      pose proof Hfind as (Hi & Hhit & Hfirst)%list_find_Some.
      split_and!; [done | done | | done | done |].
      * intros j c Hj Hlt. specialize (Hfirst j c Hj Hlt).
        by destruct (hit _ x y c).
      * rewrite length_delete by done.
        apply lookup_lt_Some in Hi. lia.
    + intros st' [= <-].
      rewrite width_scale_set_centers, Hscale. simpl.
      erewrite (list_find_insert_found _ _ i (center, clicked)
                  (center, negb clicked)); [|done|].
      * by rewrite delete_insert_same.
      * apply list_find_Some in Hfind as (_ & Hhit & _). done.
  - split.
    + right. split_and!; [|done..].
      apply list_find_None in Hfind. eapply Forall_impl; [done|].
      intros c Hc. simpl in Hc. by destruct (hit _ x y c).
    + intros st' [= <-]. rewrite Hscale. simpl. by rewrite Hfind.
Qed.

Lemma right_click_removes_click_target_witness :
  ∃ scale,
    width_scale explorer_overlap = Some scale ∧
    ((∃ i center clicked,
        detected_centers explorer_overlap !! i = Some (center, clicked) ∧
        hit (half_side scale (crop_size explorer_overlap)) 105 100
          (center, clicked) = true ∧
        (∀ j c, detected_centers explorer_overlap !! j = Some c →
                (j < i)%nat →
                hit (half_side scale (crop_size explorer_overlap)) 105 100 c
                = false) ∧
        on_canvas_click explorer_overlap 105 100
        = Some (set_centers explorer_overlap
                  (<[i := (center, negb clicked)]>
                     (detected_centers explorer_overlap))) ∧
        on_canvas_right_click explorer_overlap 105 100
        = Some (set_centers explorer_overlap
                  (delete i (detected_centers explorer_overlap))) ∧
        S (length (delete i (detected_centers explorer_overlap)))
        = length (detected_centers explorer_overlap)) ∨
     (Forall (λ c, hit (half_side scale (crop_size explorer_overlap))
                     105 100 c = false)
             (detected_centers explorer_overlap) ∧
      on_canvas_click explorer_overlap 105 100 = Some explorer_overlap ∧
      on_canvas_right_click explorer_overlap 105 100
      = Some explorer_overlap)) ∧
    (∀ st', on_canvas_click explorer_overlap 105 100 = Some st' →
            on_canvas_right_click st' 105 100
            = on_canvas_right_click explorer_overlap 105 100).
Proof.
  apply (right_click_removes_click_target explorer_overlap 105 100).
  unfold in_range. simpl. lia.
Defined.

Lemma fmul_comm a b : fmul a b = fmul b a.
Proof.
  unfold fmul. f_equal. unfold Qmult.
  by rewrite Z.mul_comm, Pos.mul_comm.
Qed.

Lemma fmin_left_iff a b : fmin a b = a ↔ fle a b = true.
Proof.
  unfold fmin, fle. destruct (Qle_bool a b) eqn:Hle; [done|].
  split; [|done]. intros ->.
  assert (Qle_bool a a = true) as Hrefl by (apply Qle_bool_iff, Qle_refl).
  congruence.
Qed.

(** X6.  [get_scale], which sizes the drawn rectangle, and the scale
    [960 / width] of the hit test and of the export are the same number
    exactly when the width ratio is not greater than the height ratio of
    the current video.  When they are the same, the box that a click is
    tested against is the rectangle drawn for the candidate.  A video
    that cannot be opened gives the scale 1 to both. *)
Theorem scales_agree_iff_width_limited st v :
  current_video st = Some v →
  (get_scale st = width_scale st
   ↔ fle (ratio_or_one 960 (get_frame_size v).1)
         (ratio_or_one 540 (get_frame_size v).2) = true) ∧
  (get_scale st = width_scale st →
   ∃ scale,
     width_scale st = Some scale ∧
     ∀ c x y,
       ∃ x1 y1 x2 y2,
         draw_rectangle st c.1 = Some (x1, y1, x2, y2) ∧
         hit (half_side scale (crop_size st)) x y c
         = fle x1 (of_int x) && fle (of_int x) x2
           && fle y1 (of_int y) && fle (of_int y) y2) ∧
  (is_opened v = false →
   get_scale st = Some 1%Q ∧ width_scale st = Some 1%Q).
Proof.
  intros Hv. unfold get_scale, width_scale, draw_rectangle, get_scale.
  rewrite Hv. simpl. destruct (get_frame_size v) as [w h] eqn:Hsize. simpl.
  split_and!.
  - rewrite <- fmin_left_iff. split; [by intros [= ->] | by intros ->].
  - intros [= Hmin]. eexists. split; [done|]. intros [[cx cy] b] x y.
    simpl. rewrite Hmin. do 4 eexists. split; [done|].
    unfold hit, half_side. simpl. by rewrite (fmul_comm (of_int _)).
  - intros Hclosed. unfold get_frame_size in Hsize. rewrite Hclosed in Hsize.
    by injection Hsize as <- <-.
Qed.

Lemma scales_agree_iff_width_limited_witness :
  (get_scale explorer_720 = width_scale explorer_720
   ↔ fle (ratio_or_one 960 (Some 1280)) (ratio_or_one 540 (Some 720))
     = true) ∧
  (get_scale explorer_720 = width_scale explorer_720 →
   ∃ scale,
     width_scale explorer_720 = Some scale ∧
     ∀ c x y,
       ∃ x1 y1 x2 y2,
         draw_rectangle explorer_720 c.1 = Some (x1, y1, x2, y2) ∧
         hit (half_side scale (crop_size explorer_720)) x y c
         = fle x1 (of_int x) && fle (of_int x) x2
           && fle y1 (of_int y) && fle (of_int y) y2) ∧
  (true = false →
   get_scale explorer_720 = Some 1%Q ∧ width_scale explorer_720 = Some 1%Q).
Proof.
  apply (scales_agree_iff_width_limited explorer_720
           (video_of_size "hd720.mp4" 1280 720)).
  reflexivity.
Defined.

End SelectionFacts.

(** ** Centres never get negative *)

Module InvariantFacts.
Import Ndarray Crop Explorer ExplorerSpec ExplorerFacts.
Import Session SessionSpec SelectionFacts.

Lemma of_int_nonneg z : 0 ≤ z → (0 <= of_int z)%Q.
Proof. intros Hz. unfold of_int, inject_Z, Qle. simpl. lia. Qed.

Lemma of_int_pos z : 0 < z → (0 < of_int z)%Q.
Proof. intros Hz. unfold of_int, inject_Z, Qlt. simpl. lia. Qed.

Lemma fmul_nonneg a b : (0 <= a)%Q → (0 <= b)%Q → (0 <= fmul a b)%Q.
Proof.
  intros Ha Hb. unfold fmul. rewrite Qred_correct.
  by apply Qmult_le_0_compat.
Qed.

Lemma fdiv_pos a b : (0 < a)%Q → (0 < b)%Q → (0 < fdiv a b)%Q.
Proof.
  intros Ha Hb. unfold fdiv. rewrite Qred_correct.
  apply Qmult_lt_0_compat; [done|]. by apply Qinv_lt_0_compat.
Qed.

Lemma fdiv_nonneg a b : (0 <= a)%Q → (0 < b)%Q → (0 <= fdiv a b)%Q.
Proof.
  intros Ha Hb. unfold fdiv. rewrite Qred_correct.
  apply Qmult_le_0_compat; [done|].
  by apply Qinv_le_0_compat, Qlt_le_weak.
Qed.

Lemma fmin_pos a b : (0 < a)%Q → (0 < b)%Q → (0 < fmin a b)%Q.
Proof. intros Ha Hb. unfold fmin. by destruct (Qle_bool a b). Qed.

Lemma trunc_nonneg q : (0 <= q)%Q → 0 ≤ trunc q.
Proof.
  unfold trunc, Qle. simpl. intros Hq. apply Z.quot_pos; lia.
Qed.

Lemma ratio_or_one_pos disp orig :
  0 < disp → (∀ z, orig = Some z → 0 ≤ z) →
  (0 < ratio_or_one disp orig)%Q.
Proof.
  intros Hdisp Horig. destruct orig as [z|]; simpl; [|done].
  destruct (Z.eqb_spec z 0) as [->|Hz]; [done|].
  specialize (Horig z eq_refl). apply fdiv_pos; apply of_int_pos; lia.
Qed.

(** Both scales are positive, so the export never divides by zero. *)
Lemma scales_pos st v :
  current_video st = Some v → sized v →
  ∃ g w, get_scale st = Some g ∧ width_scale st = Some w ∧
         (0 < g)%Q ∧ (0 < w)%Q.
Proof.
  intros Hv [Hw Hh]. unfold get_scale, width_scale. rewrite Hv. simpl.
  unfold get_frame_size. destruct (is_opened v); do 2 eexists;
    (split_and!; [done | done | |]);
    repeat first [apply fmin_pos | apply ratio_or_one_pos];
    try done; by intros z [= <-].
Qed.

Lemma nonneg_centers_fst l l' :
  fst <$> l' = fst <$> l → nonneg_centers l → nonneg_centers l'.
Proof.
  unfold nonneg_centers. intros Heq Hl.
  assert (∀ k : list candidate,
            Forall (λ c : candidate, (0 <= c.1.1)%Q ∧ (0 <= c.1.2)%Q) k
            ↔ Forall (λ p : Q * Q, (0 <= p.1)%Q ∧ (0 <= p.2)%Q) (fst <$> k))
    as Hfst by (intros k; by rewrite Forall_fmap).
  apply Hfst. rewrite Heq. by apply Hfst.
Qed.

Lemma selected_centers_nonneg st :
  in_range st → (∀ v, current_video st = Some v → sized v) →
  nonneg_centers (detected_centers st) →
  ∃ scale sel,
    width_scale st = Some scale ∧ (0 < scale)%Q ∧
    selected_centers st = Some sel ∧
    nonneg_points sel ∧
    length sel = length (selected (detected_centers st)).
Proof.
  intros Hin Hsized Hl.
  destruct (in_range_current_video st Hin) as [v Hv].
  destruct (scales_pos st v Hv (Hsized v Hv)) as (g & w & _ & Hw & _ & Hpos).
  exists w. eexists. unfold selected_centers. rewrite Hw. simpl.
  split_and!; [done | done | done | | by rewrite length_fmap].
  apply Forall_fmap, Forall_forall. intros c Hc. simpl.
  apply list_elem_of_filter in Hc as [_ Hc].
  unfold nonneg_centers in Hl. rewrite Forall_forall in Hl.
  destruct (Hl c Hc) as [Hx Hy].
  split; apply trunc_nonneg, fdiv_nonneg; done.
Qed.

Section Detector.
Variable resize : ndarray → Z → Z → ndarray.
Variable detect_beads : ndarray → list (Z * Z).
(** The detector reports no negative coordinate. *)
Hypothesis detect_nonneg : ∀ frame, nonneg_points (detect_beads frame).

Lemma detect_and_draw_centers_nonneg st frame :
  nonneg_centers (detected_centers st) →
  nonneg_centers (detected_centers (detect_and_draw_centers detect_beads st frame)).
Proof.
  intros Hl. unfold detect_and_draw_centers, nonneg_centers. simpl.
  apply Forall_app. split; [done|]. apply Forall_fmap.
  eapply Forall_impl; [apply detect_nonneg|].
  intros c [Hx Hy]. simpl. split; by apply of_int_nonneg.
Qed.

(** X7.  No command of the explorer stores a centre with a negative
    coordinate, as long as the detector reports none and the video
    reports no negative size: the list of a new session has none, and
    adding a manual entry, a left click, a right click, a change of the
    crop size, removing all and detecting again keep it so. *)
Theorem commands_keep_centres_nonnegative :
  (∀ videos st,
     __init__ resize detect_beads videos = Some st →
     nonneg_centers (detected_centers st)) ∧
  (∀ st,
     nonneg_centers (detected_centers st) →
     (∀ v, current_video st = Some v → sized v) →
     (∀ new_x new_y,
        nonneg_centers
          (detected_centers (add_custom_rectangle st new_x new_y))) ∧
     (∀ x y st', on_canvas_click st x y = Some st' →
                 nonneg_centers (detected_centers st')) ∧
     (∀ x y st', on_canvas_right_click st x y = Some st' →
                 nonneg_centers (detected_centers st')) ∧
     (∀ text, nonneg_centers (detected_centers (update_crop_size st text))) ∧
     nonneg_centers (detected_centers (remove_all_rectangles st)) ∧
     (∀ st', recreate_rectangles resize detect_beads st = Some st' →
             nonneg_centers (detected_centers st'))).
Proof.
  split.
  - intros videos st. unfold __init__, show_frame. simpl.
    destruct (current_video _) as [v|]; simpl; [|done].
    destruct (get_first_frame resize v) as [frame|]; simpl; [|done].
    destruct (videos !! 0%nat); simpl; [|done]. intros [= <-]. simpl.
    apply Forall_fmap. eapply Forall_impl; [apply detect_nonneg|].
    intros c [Hx Hy]. simpl. split; by apply of_int_nonneg.
  - intros st Hl Hsized. split_and!.
    + intros new_x new_y. unfold add_custom_rectangle.
      destruct new_x as [x|]; simpl; [|done].
      destruct (Z.ltb_spec 0 x) as [Hx|Hx]; [|done].
      destruct new_y as [y|]; simpl; [|done].
      destruct (Z.ltb_spec 0 y) as [Hy|Hy]; [|done].
      destruct (get_scale st) as [scale|] eqn:Hscale; simpl; [|done].
      apply Forall_app. split; [done|]. constructor; [|done]. simpl.
      assert (0 < scale)%Q as Hpos.
      { assert (∃ v, current_video st = Some v) as [v Hv].
        { revert Hscale. unfold get_scale.
          destruct (current_video st); [by eexists | done]. }
        destruct (scales_pos st v Hv (Hsized v Hv))
          as (g & w & Hg & _ & Hgpos & _).
        rewrite Hscale in Hg. by injection Hg as ->. }
      split; apply fmul_nonneg;
        first [apply of_int_nonneg; lia | by apply Qlt_le_weak].
    + intros x y st' Hclick.
      destruct (width_scale st) as [scale|] eqn:Hscale.
      * destruct (on_canvas_click_keeps_centers st x y scale Hscale)
          as (st1 & Hst1 & Hfst & _).
        assert (st' = st1) as -> by congruence.
        by eapply nonneg_centers_fst.
      * unfold on_canvas_click in Hclick. by rewrite Hscale in Hclick.
    + intros x y st'. unfold on_canvas_right_click.
      destruct (width_scale st); simpl; [|done].
      destruct (list_find _ _) as [[i c]|]; intros [= <-]; [|done].
      by apply Forall_delete.
    + intros text. unfold update_crop_size. destruct text as [n|]; [|done].
      by destruct (0 <? n).
    + constructor.
    + intros st'. unfold recreate_rectangles.
      destruct (current_video st) as [v|]; simpl; [|done].
      destruct (get_first_frame resize v) as [frame|]; intros [= <-];
        [|done].
      by apply detect_and_draw_centers_nonneg.
Qed.
End Detector.

Lemma commands_keep_centres_nonnegative_witness :
  (∀ videos st,
     __init__ resize_blank detect_one videos = Some st →
     nonneg_centers (detected_centers st)) ∧
  (∀ st,
     nonneg_centers (detected_centers st) →
     (∀ v, current_video st = Some v → sized v) →
     (∀ new_x new_y,
        nonneg_centers
          (detected_centers (add_custom_rectangle st new_x new_y))) ∧
     (∀ x y st', on_canvas_click st x y = Some st' →
                 nonneg_centers (detected_centers st')) ∧
     (∀ x y st', on_canvas_right_click st x y = Some st' →
                 nonneg_centers (detected_centers st')) ∧
     (∀ text, nonneg_centers (detected_centers (update_crop_size st text))) ∧
     nonneg_centers (detected_centers (remove_all_rectangles st)) ∧
     (∀ st', recreate_rectangles resize_blank detect_one st = Some st' →
             nonneg_centers (detected_centers st'))).
Proof.
  apply (commands_keep_centres_nonnegative resize_blank detect_one).
  intros frame. unfold detect_one. repeat constructor; simpl; lia.
Defined.

(** X8.  When no stored centre has a negative coordinate and the current
    video reports no negative size, the scale of the export is positive,
    so nothing is divided by zero, and the export maps the selected
    candidates, one centre for each, to integer centres without a
    negative coordinate: the centres that [export_selected_beads] can
    crop at without raising. *)
Theorem selected_centers_nonnegative st :
  in_range st → (∀ v, current_video st = Some v → sized v) →
  nonneg_centers (detected_centers st) →
  ∃ scale sel,
    width_scale st = Some scale ∧ (0 < scale)%Q ∧
    selected_centers st = Some sel ∧
    nonneg_points sel ∧
    length sel = length (selected (detected_centers st)).
Proof. apply selected_centers_nonneg. Qed.

Lemma selected_centers_nonnegative_witness :
  ∃ scale sel,
    width_scale explorer_three = Some scale ∧ (0 < scale)%Q ∧
    selected_centers explorer_three = Some sel ∧
    nonneg_points sel ∧
    length sel = length (selected (detected_centers explorer_three)).
Proof.
  apply (selected_centers_nonnegative explorer_three).
  - unfold in_range. simpl. lia.
  - intros v [= <-]. split; simpl; lia.
  - repeat constructor; simpl; discriminate.
Defined.

End InvariantFacts.

(** ** The batch, end to end *)

Module PipelineFacts.
Import Ndarray NdarrayFacts Crop CropSpec CropFacts.
Import Explorer ExplorerSpec Batch BatchFacts.
Import Session SessionSpec SelectionFacts InvariantFacts.

Lemma omap_failure_nil fs :
  Forall (λ f, ∃ ws, result f = inr ws) fs → omap failure fs = [].
Proof.
  induction 1 as [|f fs [ws Hws] _ IH]; simpl; [done|].
  unfold failure at 1. by rewrite Hws.
Qed.

Lemma take_current_length st :
  in_range st →
  length (take (S (current_index st)) (video_paths st))
  = S (current_index st).
Proof. unfold in_range. intros Hin. rewrite length_take. lia. Qed.

Lemma selected_centers_nil st :
  in_range st → selected (detected_centers st) = [] →
  selected_centers st = Some [].
Proof.
  intros Hin Hnone. destruct (in_range_width_scale st Hin) as [scale Hscale].
  unfold selected_centers. rewrite Hscale. simpl.
  unfold selected in Hnone. by rewrite Hnone.
Qed.


Section Pool.
Variable as_completed : list future → list future.

Lemma no_selection_exports_nothing st :
  in_range st → selected (detected_centers st) = [] →
  export as_completed st
  = Some {| submitted := [];
            calls := [Reset (Z.of_nat (current_index st) + 1)];
            printed := [NoCentersSelected] |} ∧
  export_one st = Some (Printed NoCentersSelected).
Proof.
  intros Hin Hsel. unfold export, export_one.
  by rewrite (selected_centers_nil st Hin Hsel).
Qed.

(** X9.  With no selected candidate, [export] and [export_one] export
    nothing: the progress sink is reset and nothing else, no task is
    submitted, and the line about the missing selection is printed.  This
    is so after [remove_all_rectangles], whatever was selected before. *)
Theorem nothing_selected_nothing_submitted st :
  in_range st →
  (selected (detected_centers st) = [] →
   export as_completed st
   = Some {| submitted := [];
             calls := [Reset (Z.of_nat (current_index st) + 1)];
             printed := [NoCentersSelected] |} ∧
   export_one st = Some (Printed NoCentersSelected)) ∧
  export as_completed (remove_all_rectangles st)
  = Some {| submitted := [];
            calls := [Reset (Z.of_nat (current_index st) + 1)];
            printed := [NoCentersSelected] |} ∧
  export_one (remove_all_rectangles st) = Some (Printed NoCentersSelected).
Proof.
  intros Hin. split; [by apply no_selection_exports_nothing|].
  by apply (no_selection_exports_nothing (remove_all_rectangles st)).
Qed.

(** X10.  [export_one] runs exactly the task that [export] submits last,
    the one of the current video, with the same centres and crop size;
    but where [export] catches the exception of a task, [export_one]
    lets it through. *)
Theorem export_one_is_last_task st sel v :
  selected_centers st = Some sel → sel ≠ [] → current_video st = Some v →
  export_one st
  = Some (match export_selected_beads v sel (crop_size st) with
          | inr ws => Exported ws
          | inl exc => Raised exc
          end) ∧
  ∃ r, export as_completed st = Some r ∧
       last (submitted r)
       = Some {| video_file := v;
                 result := export_selected_beads v sel (crop_size st) |}.
Proof.
  intros Hsel Hne Hv. unfold export_one, export. rewrite Hsel. simpl.
  destruct sel as [|c sel]; [done|]. rewrite Hv. simpl. split; [done|].
  destruct (foldl collect _ _) as [calls printed]. eexists. split; [done|].
  simpl. unfold submit_all. rewrite fmap_last. 
  assert (last (take (S (current_index st)) (video_paths st)) = Some v)
    as ->; [|done].
  rewrite last_lookup, length_take.
  pose proof (lookup_lt_Some _ _ _ Hv) as Hlt.
  replace (pred (S (current_index st) `min` length (video_paths st)))
    with (current_index st) by lia.
  rewrite lookup_take_lt by lia. done.
Qed.
End Pool.

Lemma nothing_selected_nothing_submitted_witness :
  (selected (detected_centers explorer_720) = [] →
   export reverse explorer_720
   = Some {| submitted := [];
             calls := [Reset (Z.of_nat 0 + 1)];
             printed := [NoCentersSelected] |} ∧
   export_one explorer_720 = Some (Printed NoCentersSelected)) ∧
  export reverse (remove_all_rectangles explorer_720)
  = Some {| submitted := [];
            calls := [Reset (Z.of_nat 0 + 1)];
            printed := [NoCentersSelected] |} ∧
  export_one (remove_all_rectangles explorer_720)
  = Some (Printed NoCentersSelected).
Proof.
  apply (nothing_selected_nothing_submitted reverse explorer_720).
  unfold in_range. simpl. lia.
Defined.

Lemma export_one_is_last_task_witness :
  export_one explorer_batch
  = Some (match export_selected_beads (video_of_size "c.mp4" 960 540)
                  [(100, 100)] 100 with
          | inr ws => Exported ws
          | inl exc => Raised exc
          end) ∧
  ∃ r, export reverse explorer_batch = Some r ∧
       last (submitted r)
       = Some {| video_file := video_of_size "c.mp4" 960 540;
                 result := export_selected_beads
                             (video_of_size "c.mp4" 960 540)
                             [(100, 100)] 100 |}.
Proof.
  apply (export_one_is_last_task reverse explorer_batch [(100, 100)]
           (video_of_size "c.mp4" 960 540));
    [reflexivity | discriminate | reflexivity].
Defined.

Section OrderedPool.
Variable as_completed : list future → list future.
(** The pool yields every submitted future once, in some order. *)
Hypothesis as_completed_perm : ∀ fs, as_completed fs ≡ₚ fs.

(** X11.  When the crop size is positive, no stored centre has a negative
    coordinate, some candidate is selected and every video up to the
    current one can be read, the batch of [export] has no failure: one
    task per video runs, nothing is printed, the progress sink is updated
    exactly as many times as the total it was reset to, and every task
    returns one writer per selected candidate, each given one
    [crop_size × crop_size] frame per decoded frame. *)
Theorem readable_catalog_exports_without_failure st :
  in_range st → 0 < crop_size st →
  (∀ v, current_video st = Some v → sized v) →
  nonneg_centers (detected_centers st) →
  selected (detected_centers st) ≠ [] →
  Forall readable (take (S (current_index st)) (video_paths st)) →
  ∃ r,
    export as_completed st = Some r ∧
    printed r = [] ∧
    video_file <$> submitted r
    = take (S (current_index st)) (video_paths st) ∧
    calls r
    = Reset (Z.of_nat (S (current_index st)))
      :: replicate (S (current_index st)) (Update 1)
      ++ [SetDone; Refresh] ∧
    Forall (λ f,
              ∃ ws,
                result f = inr ws ∧
                length ws = length (selected (detected_centers st)) ∧
                Forall (λ w,
                          length (written w)
                          = (Z.to_nat (frame_count (video_file f))
                             `min` length (decoded (video_file f)))%nat ∧
                          Forall (square (crop_size st)) (written w)) ws)
           (submitted r).
Proof.
  intros Hin Hs Hsized Hl Hsome Hread.
  destruct (selected_centers_nonneg st Hin Hsized Hl)
    as (scale & sel & _ & _ & Hsel & Hpoints & Hlen).
  assert (Forall (λ f,
              ∃ ws,
                result f = inr ws ∧
                length ws = length (selected (detected_centers st)) ∧
                Forall (λ w,
                          length (written w)
                          = (Z.to_nat (frame_count (video_file f))
                             `min` length (decoded (video_file f)))%nat ∧
                          Forall (square (crop_size st)) (written w)) ws)
           (submit_all st sel)) as Hall.
  { unfold submit_all. apply Forall_fmap.
    eapply Forall_impl; [exact Hread|].
    intros v (Hdisk & Hopen & Hframes). simpl.
    destruct (export_fed (crop_size st) (square (crop_size st)))
      with (v := v) (sel := sel) as (ws & Hws & Hlenws & Hfed); [|done..|].
    { intros cx cy frame Hx Hy Hf.
      destruct (crop_frame_spec (crop_size st) cx cy frame)
        as (out & Hout & Hsq & _); [done..|]. by exists out. }
    exists ws. split_and!; [done | congruence | done]. }
  unfold export. rewrite Hsel. simpl.
  destruct sel as [|c sel].
  { destruct Hsome. apply length_zero_iff_nil. by rewrite <- Hlen. }
  rewrite foldl_collect. eexists. split; [done|]. simpl.
  split_and!.
  - apply Permutation_nil_r. rewrite (as_completed_perm _).
    apply Permutation_nil_r, omap_failure_nil.
    eapply Forall_impl; [exact Hall|]. intros f (ws & Hws & _). by exists ws.
  - apply submit_all_videos.
  - rewrite (Permutation_length (as_completed_perm _)).
    unfold submit_all. rewrite length_fmap, take_current_length by done.
    f_equal. f_equal. lia.
  - done.
Qed.
End OrderedPool.

Lemma readable_catalog_exports_without_failure_witness :
  ∃ r,
    export reverse explorer_three = Some r ∧
    printed r = [] ∧
    video_file <$> submitted r = take 2 (video_paths explorer_three) ∧
    calls r
    = Reset (Z.of_nat 2) :: replicate 2 (Update 1) ++ [SetDone; Refresh] ∧
    Forall (λ f,
              ∃ ws,
                result f = inr ws ∧
                length ws
                = length (selected (detected_centers explorer_three)) ∧
                Forall (λ w,
                          length (written w)
                          = (Z.to_nat (frame_count (video_file f))
                             `min` length (decoded (video_file f)))%nat ∧
                          Forall (square 3) (written w)) ws)
           (submitted r).
Proof.
  apply (readable_catalog_exports_without_failure reverse
           reverse_Permutation explorer_three).
  - unfold in_range. simpl. lia.
  - reflexivity.
  - intros v [= <-]. split; simpl; lia.
  - repeat constructor; simpl; discriminate.
  - discriminate.
  - repeat first [apply frame4_wf | constructor].
Defined.

End PipelineFacts.

(** ** Start-up, detection again, navigation *)

Module SessionFacts.
Import Ndarray Crop Explorer ExplorerSpec Batch.
Import Session SessionSpec SelectionFacts PipelineFacts.

Lemma set_index_same st : set_index st (current_index st) = st.
Proof. by destruct st. Qed.

Lemma show_frame_in_range st index :
  (index < length (video_paths st))%nat →
  show_frame st index = Some (set_index st index).
Proof.
  intros Hlt. unfold show_frame.
  destruct (lookup_lt_is_Some_2 (video_paths st) index Hlt) as [v ->]. done.
Qed.

Lemma set_index_eq st index :
  set_index st index = st ↔ index = current_index st.
Proof.
  split; [|intros ->; apply set_index_same].
  intros Heq. by apply (f_equal current_index) in Heq.
Qed.

(** X12.  With the current index inside the catalog, the four navigation
    commands return normally and keep it inside: first goes to 0, last
    to the last video, previous and next move by one and stop at the
    ends.  None of them touches the candidates, the crop size or the
    catalog, so the candidates found on one video are carried to every
    other video.  Next undoes previous and previous undoes next, where
    they move at all. *)
Theorem navigation_stays_in_catalog st :
  in_range st →
  ∃ first prev next last,
    show_first_frame st = Some (set_index st first) ∧
    show_prev_frame st = Some (set_index st prev) ∧
    show_next_frame st = Some (set_index st next) ∧
    show_last_frame st = Some (set_index st last) ∧
    first = 0%nat ∧
    prev = (current_index st - 1)%nat ∧
    next = (S (current_index st) `min` (length (video_paths st) - 1))%nat ∧
    S last = length (video_paths st) ∧
    ((0 < current_index st)%nat →
     show_next_frame (set_index st prev) = Some st) ∧
    ((S (current_index st) < length (video_paths st))%nat →
     show_prev_frame (set_index st next) = Some st).
Proof.
  unfold in_range. intros Hin.
  exists 0%nat, (current_index st - 1)%nat,
    (S (current_index st) `min` (length (video_paths st) - 1))%nat,
    (length (video_paths st) - 1)%nat.
  split_and!; try done.
  - apply show_frame_in_range. lia.
  - unfold show_prev_frame. destruct (Nat.ltb_spec 0 (current_index st)).
    + apply show_frame_in_range. lia.
    + replace (current_index st - 1)%nat with (current_index st) by lia.
      by rewrite set_index_same.
  - unfold show_next_frame.
    destruct (Z.ltb_spec (Z.of_nat (current_index st))
                (Z.of_nat (length (video_paths st)) - 1)).
    + rewrite show_frame_in_range by lia. do 2 f_equal. lia.
    + replace (S (current_index st) `min` (length (video_paths st) - 1))%nat
        with (current_index st) by lia.
      by rewrite set_index_same.
  - unfold show_last_frame.
    destruct (length (video_paths st)) as [|n] eqn:Hlen; [lia|].
    unfold show_frame.
    destruct (lookup_lt_is_Some_2 (video_paths st) n) as [v ->]; [lia|].
    simpl. do 2 f_equal. lia.
  - lia.
  - intros Hpos. unfold show_next_frame. simpl.
    destruct (Z.ltb_spec (Z.of_nat (current_index st - 1))
                (Z.of_nat (length (video_paths st)) - 1)); [|lia].
    unfold show_frame. simpl.
    replace (current_index st - 1 + 1)%nat with (current_index st) by lia.
    destruct (lookup_lt_is_Some_2 (video_paths st) (current_index st) Hin)
      as [v ->].
    simpl. f_equal. by destruct st.
  - intros Hlt.
    replace (S (current_index st) `min` (length (video_paths st) - 1))%nat
      with (S (current_index st)) by lia.
    unfold show_prev_frame, show_frame. simpl. rewrite Nat.sub_0_r.
    destruct (lookup_lt_is_Some_2 (video_paths st) (current_index st) Hin)
      as [v ->].
    simpl. f_equal. by destruct st.
Qed.

Lemma navigation_stays_in_catalog_witness :
  ∃ first prev next last,
    show_first_frame explorer_three = Some (set_index explorer_three first) ∧
    show_prev_frame explorer_three = Some (set_index explorer_three prev) ∧
    show_next_frame explorer_three = Some (set_index explorer_three next) ∧
    show_last_frame explorer_three = Some (set_index explorer_three last) ∧
    first = 0%nat ∧
    prev = (current_index explorer_three - 1)%nat ∧
    next = (S (current_index explorer_three)
            `min` (length (video_paths explorer_three) - 1))%nat ∧
    S last = length (video_paths explorer_three) ∧
    ((0 < current_index explorer_three)%nat →
     show_next_frame (set_index explorer_three prev) = Some explorer_three) ∧
    ((S (current_index explorer_three)
      < length (video_paths explorer_three))%nat →
     show_prev_frame (set_index explorer_three next) = Some explorer_three).
Proof.
  apply (navigation_stays_in_catalog explorer_three).
  unfold in_range. simpl. lia.
Defined.

(** X13.  With the current index inside the catalog, a navigation button
    is disabled exactly when its command would leave the explorer as it
    is. *)
Theorem disabled_buttons_do_nothing st :
  in_range st →
  (first_button (update_button_states st) = disabled
   ↔ show_first_frame st = Some st) ∧
  (prev_button (update_button_states st) = disabled
   ↔ show_prev_frame st = Some st) ∧
  (next_button (update_button_states st) = disabled
   ↔ show_next_frame st = Some st) ∧
  (last_button (update_button_states st) = disabled
   ↔ show_last_frame st = Some st).
Proof.
  unfold in_range. intros Hin. unfold update_button_states. simpl.
  assert (∀ index, (index < length (video_paths st))%nat →
            (show_frame st index = Some st ↔ index = current_index st))
    as Hshow.
  { intros index Hlt. rewrite show_frame_in_range by done.
    rewrite <- set_index_eq. split; congruence. }
  split_and!.
  - unfold show_first_frame. rewrite Hshow by lia.
    destruct (Nat.eqb_spec (current_index st) 0); split; (done || lia).
  - unfold show_prev_frame.
    destruct (Nat.eqb_spec (current_index st) 0) as [Hz|Hz].
    + rewrite Hz. done.
    + replace (0 <? current_index st)%nat with true
        by (symmetry; apply Nat.ltb_lt; lia).
      rewrite Hshow by lia. split; [done | lia].
  - unfold show_next_frame.
    destruct (Z.leb_spec (Z.of_nat (length (video_paths st)) - 1)
                (Z.of_nat (current_index st))).
    + replace (Z.of_nat (current_index st)
               <? Z.of_nat (length (video_paths st)) - 1) with false by lia.
      done.
    + replace (Z.of_nat (current_index st)
               <? Z.of_nat (length (video_paths st)) - 1) with true by lia.
      rewrite Hshow by lia. split; [done | lia].
  - unfold show_last_frame.
    destruct (length (video_paths st)) as [|n] eqn:Hlen; [lia|].
    rewrite Hshow by lia.
    destruct (Z.leb_spec (Z.of_nat (S n) - 1) (Z.of_nat (current_index st)));
      split; (done || lia).
Qed.

Lemma disabled_buttons_do_nothing_witness :
  (first_button (update_button_states explorer_three) = disabled
   ↔ show_first_frame explorer_three = Some explorer_three) ∧
  (prev_button (update_button_states explorer_three) = disabled
   ↔ show_prev_frame explorer_three = Some explorer_three) ∧
  (next_button (update_button_states explorer_three) = disabled
   ↔ show_next_frame explorer_three = Some explorer_three) ∧
  (last_button (update_button_states explorer_three) = disabled
   ↔ show_last_frame explorer_three = Some explorer_three).
Proof.
  apply (disabled_buttons_do_nothing explorer_three).
  unfold in_range. simpl. lia.
Defined.

Section Detector.
Variable resize : ndarray → Z → Z → ndarray.
Variable detect_beads : ndarray → list (Z * Z).


End Detector.


End SessionFacts.

(** ** The catalog and the names of the output files *)

Module CatalogFacts.
Import Catalog CatalogSpec.

Lemma append_nil_l s : EmptyString +:+ s = s.
Proof. done. Qed.

Lemma append_cons c s t : String c s +:+ t = String c (s +:+ t).
Proof. done. Qed.

Lemma append_assoc s t u : (s +:+ t) +:+ u = s +:+ t +:+ u.
Proof.
  induction s as [|c s IH]; [done|]. by rewrite !append_cons, IH.
Qed.

Lemma append_nil_r s : s +:+ EmptyString = s.
Proof. induction s as [|c s IH]; [done|]. by rewrite append_cons, IH. Qed.

Lemma append_eq_nil s t : s +:+ t = EmptyString → t = EmptyString.
Proof. by destruct s. Qed.

Lemma endswith_unfold s suffix :
  endswith s suffix
  = if String.eqb s suffix then true
    else match s with
         | EmptyString => false
         | String _ rest => endswith rest suffix
         end.
Proof. by destruct s. Qed.

Lemma endswith_spec s suffix :
  endswith s suffix = true ↔ ∃ p, s = p +:+ suffix.
Proof.
  induction s as [|c s IH]; rewrite endswith_unfold.
  - destruct (String.eqb_spec EmptyString suffix) as [<-|Hne].
    + split; [|done]. by exists EmptyString.
    + split; [done|]. intros [p Hp]. symmetry in Hp.
      apply append_eq_nil in Hp. congruence.
  - destruct (String.eqb_spec (String c s) suffix) as [<-|Hne].
    + split; [|done]. by exists EmptyString.
    + rewrite IH. split.
      * intros [p ->]. exists (String c p). by rewrite append_cons.
      * intros [[|c' p] Hp]; [by rewrite append_nil_l in Hp|].
        rewrite append_cons in Hp. injection Hp as -> ->. by exists p.
Qed.

Lemma has_sep_app s t : has_sep (s +:+ t) = has_sep s || has_sep t.
Proof.
  induction s as [|c s IH]; [done|].
  rewrite append_cons. simpl. by rewrite IH, orb_assoc.
Qed.

Lemma plain_not_absolute f : plain f → startswith f "/" = false.
Proof.
  unfold plain, startswith. destruct f as [|c f]; [done|].
  intros Hf. cbn [String.prefix].
  destruct (ascii_dec "/" c) as [<-|]; [|done]. by simpl in Hf.
Qed.

Lemma join_plain a f : plain f → join a f = dir_prefix a +:+ f.
Proof.
  intros Hf. unfold join, dir_prefix. rewrite (plain_not_absolute f Hf).
  destruct (_ || _); [done|]. by rewrite append_assoc.
Qed.

(** The prefix is empty or ends with the separator. *)
Lemma dir_prefix_shape a :
  dir_prefix a = EmptyString ∨ ∃ d, dir_prefix a = d +:+ "/".
Proof.
  unfold dir_prefix. destruct (String.eqb_spec a EmptyString) as [->|Hne].
  - by left.
  - simpl. right. destruct (endswith a "/") eqn:Hend; [|by exists a].
    by apply endswith_spec in Hend.
Qed.

Lemma basename_plain_id f : plain f → basename f = f.
Proof.
  unfold plain. destruct f as [|c f]; [done|]. simpl.
  intros Hf. apply orb_false_elim in Hf as [Hc Hf]. by rewrite Hf, Hc.
Qed.

Lemma basename_after_sep d f :
  plain f → basename (d +:+ "/" +:+ f) = f.
Proof.
  unfold plain. intros Hf. induction d as [|c d IH].
  - rewrite append_nil_l, append_cons, append_nil_l. simpl. by rewrite Hf.
  - rewrite append_cons. simpl.
    by rewrite has_sep_app, append_cons, append_nil_l, orb_true_r.
Qed.

Lemma basename_join a f : plain f → basename (join a f) = f.
Proof.
  intros Hf. rewrite join_plain by done.
  destruct (dir_prefix_shape a) as [->|[d ->]].
  - rewrite append_nil_l. by apply basename_plain_id.
  - rewrite append_assoc. by apply basename_after_sep.
Qed.

Lemma basename_is_plain p : plain (basename p).
Proof.
  unfold plain. induction p as [|c p IH]; [done|]. simpl.
  destruct (has_sep p) eqn:Hp; [done|].
  destruct (Ascii.eqb c "/") eqn:Hc; [done|]. simpl. by rewrite Hc.
Qed.

Lemma compare_app_prefix p s t :
  String.compare (p +:+ s) (p +:+ t) = String.compare s t.
Proof.
  induction p as [|c p IH]; [done|]. rewrite !append_cons. simpl.
  unfold Ascii.compare. by rewrite N.compare_refl.
Qed.

Lemma le_app_prefix p s t : String.le (p +:+ s) (p +:+ t) ↔ String.le s t.
Proof. unfold String.le, String.leb. by rewrite compare_app_prefix. Qed.

(** X16.  For a directory listing of plain names,
    [get_sorted_video_files] returns the listed names that end in [.mp4]
    or [.avi], with the case of the letters as it is, each exactly once
    per listing entry, in ascending order of their bytes, each joined to
    the input directory; the paths are in ascending order too, and the
    base name of each path is the listed name again. *)
Theorem catalog_lists_sorted_videos input listdir :
  Forall plain listdir →
  ∃ names,
    get_sorted_video_files input listdir = join input <$> names ∧
    names ≡ₚ filter (λ f, is_video_file f = true) listdir ∧
    Forall (λ f, ∃ stem, f = stem +:+ ".mp4" ∨ f = stem +:+ ".avi") names ∧
    Sorted String.le names ∧
    Sorted String.le (join input <$> names) ∧
    basename <$> (join input <$> names) = names.
Proof.
  intros Hplain.
  exists (merge_sort String.le (filter (λ f, is_video_file f = true) listdir)).
  pose proof (merge_sort_Permutation String.le
                (filter (λ f, is_video_file f = true) listdir)) as Hperm.
  assert (Forall plain
            (merge_sort String.le
               (filter (λ f, is_video_file f = true) listdir))) as Hnames.
  { rewrite Hperm. apply Forall_forall. intros f Hf.
    apply list_elem_of_filter in Hf as [_ Hf].
    rewrite Forall_forall in Hplain. by apply Hplain. }
  assert (join input
            <$> merge_sort String.le
                  (filter (λ f, is_video_file f = true) listdir)
          = String.append (dir_prefix input)
            <$> merge_sort String.le
                  (filter (λ f, is_video_file f = true) listdir)) as Hjoin.
  { apply Forall_fmap_ext_1. eapply Forall_impl; [exact Hnames|].
    intros f Hf. by apply join_plain. }
  split_and!; [done | done | | | |].
  - rewrite Hperm. apply Forall_forall. intros f Hf.
    apply list_elem_of_filter in Hf as [Hf _]. unfold is_video_file in Hf.
    apply orb_true_iff in Hf as [Hf|Hf]; apply endswith_spec in Hf as [p ->];
      exists p; auto.
  - apply Sorted_merge_sort. apply _.
  - rewrite Hjoin. eapply Sorted_fmap; [|apply Sorted_merge_sort, _].
    intros s t. apply le_app_prefix.
  - rewrite <- list_fmap_compose. rewrite <- (list_fmap_id (merge_sort _ _)) at 2.
    apply Forall_fmap_ext_1. eapply Forall_impl; [exact Hnames|].
    intros f Hf. simpl. by apply basename_join.
Qed.

Lemma catalog_lists_sorted_videos_witness :
  ∃ names,
    get_sorted_video_files "raw" listing = join "raw" <$> names ∧
    names ≡ₚ filter (λ f, is_video_file f = true) listing ∧
    Forall (λ f, ∃ stem, f = stem +:+ ".mp4" ∨ f = stem +:+ ".avi") names ∧
    Sorted String.le names ∧
    Sorted String.le (join "raw" <$> names) ∧
    basename <$> (join "raw" <$> names) = names.
Proof.
  apply (catalog_lists_sorted_videos "raw" listing).
  repeat constructor.
Defined.

Lemma pretty_N_char_not_sep k : Ascii.eqb (pretty_N_char k) "/" = false.
Proof. unfold pretty_N_char. by repeat case_match. Qed.

(** The decimal digits of a number hold no separator. *)
Lemma pretty_N_go_plain x : ∀ s,
  ∃ p, pretty_N_go x s = p +:+ s ∧ plain p ∧
       ((0 < x)%N → p ≠ EmptyString).
Proof.
  induction (N.lt_wf_0 x) as [x _ IH]. intros s.
  destruct (decide (x = 0)%N) as [->|Hx].
  - exists EmptyString. rewrite pretty_N_go_0. split_and!; [done | done | lia].
  - rewrite pretty_N_go_step by lia.
    destruct (IH (x `div` 10)%N) with
      (s := String (pretty_N_char (x `mod` 10)) s) as (p & -> & Hp & _).
    { apply N.div_lt; lia. }
    exists (p +:+ String (pretty_N_char (x `mod` 10)) EmptyString).
    split_and!.
    + by rewrite append_assoc, append_cons, append_nil_l.
    + unfold plain in *. rewrite has_sep_app, Hp. simpl.
      by rewrite pretty_N_char_not_sep.
    + intros _ Hnil. by apply append_eq_nil in Hnil.
Qed.

Lemma pretty_nat_plain (i : nat) :
  plain (pretty i) ∧ pretty i ≠ EmptyString.
Proof.
  unfold pretty, pretty_nat, pretty, pretty_N.
  destruct (decide (N.of_nat i = 0)%N) as [_|Hi]; [done|].
  destruct (pretty_N_go_plain (N.of_nat i) EmptyString) as (p & -> & Hp & Hne).
  rewrite append_nil_r. split; [done|]. apply Hne. lia.
Qed.

Lemma endswith_app_nonempty x d :
  d ≠ EmptyString → endswith (x +:+ d) "/" = endswith d "/".
Proof.
  intros Hd. induction x as [|c x IH]; [done|].
  rewrite append_cons, endswith_unfold.
  destruct (String.eqb_spec (String c (x +:+ d)) "/") as [Heq|_]; [|done].
  injection Heq as _ Heq. by apply append_eq_nil in Heq.
Qed.

Lemma plain_not_endswith_sep d : plain d → endswith d "/" = false.
Proof.
  unfold plain. intros Hd. destruct (endswith d "/") eqn:Hend; [|done].
  apply endswith_spec in Hend as [y ->]. rewrite has_sep_app in Hd.
  by rewrite orb_true_r in Hd.
Qed.

Lemma plain_split d1 r1 : ∀ d2 r2,
  plain d1 → plain d2 →
  d1 +:+ "/" +:+ r1 = d2 +:+ "/" +:+ r2 → d1 = d2 ∧ r1 = r2.
Proof.
  unfold plain. induction d1 as [|c1 d1 IH]; intros [|c2 d2] r2 H1 H2 Heq.
  - rewrite !append_nil_l, !append_cons, !append_nil_l in Heq.
    by injection Heq as ->.
  - rewrite !append_nil_l, !append_cons, !append_nil_l in Heq.
    injection Heq as <- _. by simpl in H2.
  - rewrite !append_nil_l, !append_cons, !append_nil_l in Heq.
    injection Heq as -> _. by simpl in H1.
  - rewrite !append_cons in Heq. injection Heq as -> Heq.
    simpl in H1, H2. apply orb_false_elim in H1 as [_ H1].
    apply orb_false_elim in H2 as [_ H2].
    destruct (IH d2 r2 H1 H2 Heq) as [-> ->]. done.
Qed.

(** The path of an output file, spelled out. *)
Lemma out_path_shape output i p :
  out_path output i p
  = dir_prefix output +:+ "bead_" +:+ pretty i +:+ "/" +:+ basename p.
Proof.
  destruct (pretty_nat_plain i) as [Hplain Hne].
  unfold out_path.
  assert (plain ("bead_" +:+ pretty i)) as Hbead.
  { unfold plain in *. by rewrite has_sep_app, Hplain. }
  rewrite (join_plain output _ Hbead).
  rewrite join_plain by apply basename_is_plain.
  unfold dir_prefix at 1.
  assert (dir_prefix output +:+ "bead_" +:+ pretty i
          = (dir_prefix output +:+ "bead_") +:+ pretty i) as Hassoc
    by (by rewrite append_assoc).
  rewrite Hassoc at 1 2. rewrite endswith_app_nonempty by done.
  rewrite (plain_not_endswith_sep _ Hplain), orb_false_r.
  destruct (String.eqb_spec ((dir_prefix output +:+ "bead_") +:+ pretty i)
              EmptyString) as [Hnil|_].
  { by apply append_eq_nil in Hnil. }
  by rewrite !append_assoc.
Qed.

(** X17.  Two output files of [export_selected_beads] under one output
    directory have the same path exactly when they belong to the same
    bead number and to source files of the same base name.  So within a
    batch over the catalog, whose files lie in one directory under
    different names, no two writers share a file. *)
Theorem output_files_never_collide output i j p q :
  (out_path output i p = out_path output j q
   ↔ i = j ∧ basename p = basename q) ∧
  (∀ input f g,
     plain f → plain g →
     (out_path output i (join input f) = out_path output j (join input g)
      ↔ i = j ∧ f = g)).
Proof.
  assert (out_path output i p = out_path output j q
          ↔ i = j ∧ basename p = basename q) as Hmain.
  { rewrite !out_path_shape. split; [|by intros [-> ->]].
    intros Heq. apply (inj (String.append _)) in Heq.
    apply (inj (String.append _)) in Heq.
    apply plain_split in Heq as [Hi Hb]; [|apply pretty_nat_plain..].
    split; [|done]. by apply (inj pretty). }
  split; [done|]. intros input f g Hf Hg.
  rewrite !out_path_shape, !basename_join by done.
  split; [|by intros [-> ->]].
  intros Heq. apply (inj (String.append _)) in Heq.
  apply (inj (String.append _)) in Heq.
  apply plain_split in Heq as [Hi Hb]; [|apply pretty_nat_plain..].
  split; [|done]. by apply (inj pretty).
Qed.

End CatalogFacts.
